(** * lsstUtils.py: display helpers for difference-imaging data products

    A shallow embedding of [src/lsstUtils.py] and the properties of its
    contrast estimator ([zscale]), its panel composers ([displayImage],
    [displayImages], [displayMaskedImage], [displayExposure],
    [displayCutouts]) and its catalog helpers ([makeHeavyCatalog],
    [searchCatalog]).

    Conventions of the embedding.

    - Two embeddings of the floating-point values are used.  Where only
      the structure of a computation matters (which samples are kept,
      which panel shows which array, which exception is raised), a value is
      either not-a-number or an exact rational, and [zscale] computes
      without rounding.  Where the order of floating-point results matters,
      [Ieee.zscale] is the same function over an interface of the
      floating-point operations, [Ieee.Arith], of which only the laws
      [Ieee.Laws] are used: the infinities are values of the interface,
      the operations may round, and [np.polyfit] is a parameter.
    - A Python exception is a value of [exn]; a computation that may raise
      returns [except A].
    - Functions that draw or print thread an explicit [world]. *)

From Stdlib Require Import ZArith QArith Qround Lqa.
From stdpp Require Import prelude sorting strings pretty gmap.

Close Scope Q_scope.
Local Open Scope nat_scope.

(** ** Python values and exceptions *)

Module Py.

(** The exception classes that the module's statements can raise, and
    [InvalidInput], which no statement of the module raises. *)
Inductive exn : Set :=
| IndexError
| TypeError
| ValueError
| AttributeError
| LengthError
| InvalidInput.

Definition except (A : Type) : Type := exn + A.

Definition ok {A} (a : A) : except A := inr a.
Definition raise {A} (e : exn) : except A := inl e.

Definition bind {A B} (m : except A) (k : A → except B) : except B :=
  match m with
  | inl e => inl e
  | inr a => k a
  end.

(** [l[i]] for a non-negative index. *)
Definition getitem {A} (l : list A) (i : nat) : except A :=
  match l !! i with
  | Some a => ok a
  | None => raise IndexError
  end.

(** Normalisation of one bound of a slice over a sequence of length [n]:
    a negative bound counts from the end, and both are clipped. *)
Definition slice_bound (n : nat) (i : Z) : nat :=
  Z.to_nat (if (i <? 0)%Z then Z.max 0 (i + Z.of_nat n) else Z.min i (Z.of_nat n)).

(** [l[start:stop]]. *)
Definition slice {A} (l : list A) (start stop : Z) : list A :=
  let s := slice_bound (length l) start in
  let e := slice_bound (length l) stop in
  take (e - s) (drop s l).

(** [int(x)] on a real number: truncation toward zero. *)
Definition int (q : Q) : Z := Z.quot (Qnum q) (Z.pos (Qden q)).

End Py.

Notation "'let?' x := m 'in' k" := (Py.bind m (λ x, k))
  (at level 10, x pattern, m at level 100, k at level 200).

(** ** NumPy arrays *)

Module Np.

(** A float: not-a-number, or a real value. *)
Inductive float : Set :=
| NaN
| Fin (q : Q).

Definition isnan (v : float) : bool :=
  match v with NaN => true | Fin _ => false end.

(** A 2-D array, stored by rows. *)
Abbreviation array2 := (list (list float)).

(** [a.flatten()]: row-major order. *)
Definition flatten (a : array2) : list float := concat a.

(** [samples[~np.isnan(samples)]]; the survivors are real numbers. *)
Definition drop_nan (samples : list float) : list Q :=
  omap (λ v, match v with NaN => None | Fin q => Some q end) samples.

#[export] Instance Qle_dec : RelDecision Qle :=
  λ x y, Z_le_dec (Qnum x * QDen y) (Qnum y * QDen x).

(** [samples.sort()]: ascending. *)
Definition sort (samples : list Q) : list Q := merge_sort Qle samples.

(** [np.arange(n) - k] *)
Definition arange_minus (n : nat) (k : nat) : list Q :=
  (λ i, inject_Z (Z.of_nat i) - inject_Z (Z.of_nat k))%Q <$> seq 0 n.

(** [sum(l)] *)
Definition Qsum (l : list Q) : Q := foldr Qplus 0%Q l.

(** A Python integer used in floating-point arithmetic. *)
Definition Qnat (n : nat) : Q := inject_Z (Z.of_nat n).

(** [np.polyfit(x, y, 1)]: the coefficients, highest power first, of the
    line that minimises the squared error, given by the normal equations.
    NumPy refuses an empty [x] and vectors of different lengths. *)
Definition polyfit1 (x y : list Q) : Py.except (Q * Q) :=
  if decide (length x = 0) then Py.raise Py.TypeError
  else if decide (length x ≠ length y) then Py.raise Py.TypeError
  else
    let n := Qnat (length x) in
    let sx := Qsum x in
    let sy := Qsum y in
    let sxy := Qsum (zip_with Qmult x y) in
    let sxx := Qsum (zip_with Qmult x x) in
    let slope := ((n * sxy - sx * sy) / (n * sxx - sx * sx))%Q in
    let intercept := ((sy - slope * sx) / n)%Q in
    Py.ok (slope, intercept).

End Np.

(** ** The contrast estimator *)

(** [zscale(input_img, contrast)].  [int(0.10*len(samples))] is the integer
    quotient of the length by ten, and [int(len(subset)/2)] the integer
    quotient by two.  A division by a zero contrast, which NumPy answers
    with an infinity or not-a-number, is outside the model. *)
Definition zscale (input_img : Np.array2) (contrast : Q) : Py.except (Q * Q) :=
  let samples := Np.flatten input_img in
  let samples := Np.drop_nan samples in
  let samples := Np.sort samples in
  let chop_size := Z.of_nat (length samples / 10) in
  let subset := Py.slice samples chop_size (- chop_size)%Z in
  let i_midpoint := length subset / 2 in
  let? I_mid := Py.getitem subset i_midpoint in
  let? fit := Np.polyfit1 (Np.arange_minus (length subset) i_midpoint) subset in
  let z1 := (I_mid + fit.1 / contrast * (1 - Np.Qnat i_midpoint) / 1)%Q in
  let z2 := (I_mid + fit.1 / contrast * (Np.Qnat (length subset) - Np.Qnat i_midpoint) / 1)%Q in
  Py.ok (z1, z2).

(** ** The contrast estimator over floating-point arithmetic *)

Module Ieee.

(** The floating-point operations that [zscale] uses, and [np.polyfit]:
    nothing is assumed on how the operations round, nor on how the fit is
    computed.  [of_int] converts a Python integer; Python raises on an
    integer beyond the range of the floats, so that the conversion yields
    no infinity. *)
Class Arith : Type := mkArith {
  float : Type;
  isnan : float → bool;          (* np.isnan *)
  isfinite : float → bool;       (* neither not-a-number nor an infinity *)
  of_int : Z → float;            (* a Python integer in a float expression *)
  add : float → float → float;
  mul : float → float → float;
  div : float → float → float;
  le : float → float → bool;     (* <=: false when a side is not-a-number *)
  polyfit : list Z → list float → Py.except (float * float)
                                 (* np.polyfit(x, y, 1) on integers x *) }.

(** [a <= b] holds. *)
Definition le_prop {A : Arith} (a b : float) : Prop := le a b = true.

#[global] Instance le_prop_dec {A : Arith} : RelDecision le_prop :=
  λ a b, decide (le a b = true).

(** [a < b] holds. *)
Definition lt_prop {A : Arith} (a b : float) : Prop := le a b = true ∧ le b a = false.

(** [samples[~np.isnan(samples)]] *)
Definition drop_nan {A : Arith} (samples : list float) : list float :=
  filter (λ v, isnan v = false) samples.

(** [np.arange(n) - k] *)
Definition arange_minus (n k : nat) : list Z :=
  (λ i, Z.of_nat i - Z.of_nat k)%Z <$> seq 0 n.

(** [zscale(input_img, contrast)], statement by statement.  The filter
    drops not-a-number only, so that an infinite sample stays; the
    abscissae [np.arange(len(subset)) - i_midpoint] are integers;
    [fit[0]/contrast * (1-i_midpoint)/1.0] is read from left to right, the
    integer [1 - i_midpoint] being converted on the way. *)
Definition zscale {A : Arith} (input_img : list (list float)) (contrast : float)
  : Py.except (float * float) :=
  let samples := concat input_img in
  let samples := drop_nan samples in
  let samples := merge_sort le_prop samples in
  let chop_size := Z.of_nat (length samples / 10) in
  let subset := Py.slice samples chop_size (- chop_size)%Z in
  let i_midpoint := length subset / 2 in
  let? I_mid := Py.getitem subset i_midpoint in
  let? fit := polyfit (arange_minus (length subset) i_midpoint) subset in
  let z1 := add I_mid (div (mul (div fit.1 contrast) (of_int (1 - Z.of_nat i_midpoint)))
                           (of_int 1)) in
  let z2 := add I_mid (div (mul (div fit.1 contrast)
                                (of_int (Z.of_nat (length subset) - Z.of_nat i_midpoint)))
                           (of_int 1)) in
  Py.ok (z1, z2).

(** The trimmed subset as [zscale] computes it. *)
Definition zscale_subset {A : Arith} (input_img : list (list float)) : list float :=
  let samples := merge_sort le_prop (drop_nan (concat input_img)) in
  let chop_size := Z.of_nat (length samples / 10) in
  Py.slice samples chop_size (- chop_size)%Z.

(** What the order of the two bounds rests on: the sign of a quotient and
    of a product, the monotonicity of each operation in one argument, and
    the division by one, which does not move a value across another.  An
    IEEE 754 operation returns the exact result rounded, and rounding is
    monotone and keeps the values that can be represented, zero and the
    infinities among them: each law follows from that.  The laws do not
    say that an operation is exact, and none of them bears on
    [polyfit]. *)
Class Laws (A : Arith) : Prop := mkLaws {
  le_trans a b c : le a b = true → le b c = true → le a c = true;
  div_nonneg s c :
    le (of_int 0) s = true → lt_prop (of_int 0) c → isfinite c = true →
    le (of_int 0) (div s c) = true;
  div_antitone s c1 c2 :
    le (of_int 0) s = true → lt_prop (of_int 0) c1 → le c1 c2 = true →
    isfinite c2 = true → le (div s c2) (div s c1) = true;
  mul_int_nonpos t k :
    le (of_int 0) t = true → (k < 0)%Z → le (mul t (of_int k)) (of_int 0) = true;
  mul_int_nonneg t k :
    le (of_int 0) t = true → (0 < k)%Z → le (of_int 0) (mul t (of_int k)) = true;
  mul_int_antitone a b k :
    le (of_int 0) a = true → le a b = true → (k < 0)%Z →
    le (mul b (of_int k)) (mul a (of_int k)) = true;
  mul_int_monotone a b k :
    le (of_int 0) a = true → le a b = true → (0 < k)%Z →
    le (mul a (of_int k)) (mul b (of_int k)) = true;
  div_one_l a b : le a b = true → le (div a (of_int 1)) b = true;
  div_one_r a b : le a b = true → le a (div b (of_int 1)) = true;
  add_nonpos x a : isfinite x = true → le a (of_int 0) = true → le (add x a) x = true;
  add_nonneg x a : isfinite x = true → le (of_int 0) a = true → le x (add x a) = true;
  add_monotone x a b : isfinite x = true → le a b = true → le (add x a) (add x b) = true }.

(** *** A model: exact arithmetic with the special values

    The rationals, the two infinities and not-a-number, with the special
    cases of IEEE 754 and no rounding; zero has no sign and counts as
    positive under a division. *)
Inductive xfloat : Set :=
| XNaN
| PInf
| NInf
| XFin (q : Q).

Definition xisnan (a : xfloat) : bool :=
  match a with XNaN => true | _ => false end.

Definition xisfinite (a : xfloat) : bool :=
  match a with XFin _ => true | _ => false end.

Definition xadd (a b : xfloat) : xfloat :=
  match a, b with
  | XNaN, _ | _, XNaN => XNaN
  | PInf, NInf | NInf, PInf => XNaN
  | PInf, _ | _, PInf => PInf
  | NInf, _ | _, NInf => NInf
  | XFin p, XFin q => XFin (p + q)
  end.

Definition xmul (a b : xfloat) : xfloat :=
  match a, b with
  | XNaN, _ | _, XNaN => XNaN
  | PInf, PInf | NInf, NInf => PInf
  | PInf, NInf | NInf, PInf => NInf
  | PInf, XFin q | XFin q, PInf =>
      match (q ?= 0)%Q with Eq => XNaN | Gt => PInf | Lt => NInf end
  | NInf, XFin q | XFin q, NInf =>
      match (q ?= 0)%Q with Eq => XNaN | Gt => NInf | Lt => PInf end
  | XFin p, XFin q => XFin (p * q)
  end.

Definition xdiv (a b : xfloat) : xfloat :=
  match a, b with
  | XNaN, _ | _, XNaN => XNaN
  | PInf, XFin q => match (q ?= 0)%Q with Lt => NInf | _ => PInf end
  | NInf, XFin q => match (q ?= 0)%Q with Lt => PInf | _ => NInf end
  | XFin _, (PInf | NInf) => XFin 0
  | XFin p, XFin q =>
      match (q ?= 0)%Q with
      | Eq => match (p ?= 0)%Q with Eq => XNaN | Gt => PInf | Lt => NInf end
      | _ => XFin (p / q)
      end
  | _, _ => XNaN
  end.

Definition xle (a b : xfloat) : bool :=
  match a, b with
  | XNaN, _ | _, XNaN => false
  | NInf, _ | _, PInf => true
  | PInf, _ | _, NInf => false
  | XFin p, XFin q => Qle_bool p q
  end.

(** The values of a sequence, when all are finite. *)
Definition finite_values (l : list xfloat) : option (list Q) :=
  mapM (λ a, match a with XFin q => Some q | _ => None end) l.

(** [np.polyfit(x, y, 1)]: the exact least-squares line on finite data;
    data that are not all finite give not-a-number coefficients. *)
Definition xpolyfit (x : list Z) (y : list xfloat) : Py.except (xfloat * xfloat) :=
  if decide (length x = 0) then Py.raise Py.TypeError
  else if decide (length x ≠ length y) then Py.raise Py.TypeError
  else
    match finite_values y with
    | Some values =>
        let? fit := Np.polyfit1 (inject_Z <$> x) values in
        Py.ok (XFin fit.1, XFin fit.2)
    | None => Py.ok (XNaN, XNaN)
    end.

Definition exact : Arith :=
  {| float := xfloat; isnan := xisnan; isfinite := xisfinite;
     of_int := λ k, XFin (inject_Z k);
     add := xadd; mul := xmul; div := xdiv; le := xle; polyfit := xpolyfit |}.

End Ieee.

(** ** Images, footprints and catalogs (the [lsst.afw] collaborators) *)

Module Afw.

(** An integer bounding box: begin inclusive, end exclusive. *)
Record Box : Set := mkBox {
  getBeginX : Z;
  getEndX : Z;
  getBeginY : Z;
  getEndY : Z }.

Definition getWidth (b : Box) : Z := getEndX b - getBeginX b.
Definition getHeight (b : Box) : Z := getEndY b - getBeginY b.

(** [bbox.contains(Point2I(x, y))] *)
Definition inside (b : Box) (x y : Z) : bool :=
  (getBeginX b <=? x)%Z && (x <? getEndX b)%Z &&
  (getBeginY b <=? y)%Z && (y <? getEndY b)%Z.

(** [bbox.contains(other)] *)
Definition contains_box (b other : Box) : bool :=
  (getBeginX b <=? getBeginX other)%Z && (getEndX other <=? getEndX b)%Z &&
  (getBeginY b <=? getBeginY other)%Z && (getEndY other <=? getEndY b)%Z.

(** [bbox.grow(n)] *)
Definition grow (b : Box) (n : Z) : Box :=
  mkBox (getBeginX b - n) (getEndX b + n) (getBeginY b - n) (getEndY b + n).

(** An image: a pixel array placed at a bounding box.  Row [j], column [i]
    of the array is the pixel [(getBeginX + i, getBeginY + j)]. *)
Record Image : Set := mkImage {
  getBBox : Box;
  getArray : Np.array2 }.

(** The value of the pixel [(x, y)], when the image has it. *)
Definition pixel (im : Image) (x y : Z) : option Np.float :=
  if inside (getBBox im) x y then
    row ← getArray im !! Z.to_nat (y - getBeginY (getBBox im));
    row !! Z.to_nat (x - getBeginX (getBBox im))
  else None.

(** [afwImage.ImageF(bbox, fill)] *)
Definition ImageF_fill (bbox : Box) (fill : Np.float) : Image :=
  mkImage bbox
    (replicate (Z.to_nat (getHeight bbox)) (replicate (Z.to_nat (getWidth bbox)) fill)).

(** [afwImage.ImageF(image, bbox, afwImage.PARENT)]: the sub-image at
    [bbox], in the coordinates of the parent; the box must lie within the
    parent's. *)
Definition ImageF_sub (im : Image) (bbox : Box) : Py.except Image :=
  if contains_box (getBBox im) bbox then
    let dx := Z.to_nat (getBeginX bbox - getBeginX (getBBox im)) in
    let dy := Z.to_nat (getBeginY bbox - getBeginY (getBBox im)) in
    let rows := take (Z.to_nat (getHeight bbox)) (drop dy (getArray im)) in
    Py.ok (mkImage bbox ((λ r, take (Z.to_nat (getWidth bbox)) (drop dx r)) <$> rows))
  else Py.raise Py.LengthError.

(** Writing one pixel of an image; the pixel must exist. *)
Definition set_pixel (im : Image) (x y : Z) (v : Np.float) : Py.except Image :=
  match pixel im x y with
  | None => Py.raise Py.LengthError
  | Some _ =>
      let j := Z.to_nat (y - getBeginY (getBBox im)) in
      let i := Z.to_nat (x - getBeginX (getBBox im)) in
      Py.ok (mkImage (getBBox im) (alter (λ row, <[i := v]> row) j (getArray im)))
  end.

(** Three aligned planes sharing one bounding box. *)
Record MaskedImage : Set := mkMaskedImage {
  mi_bbox : Box;
  mi_image : Np.array2;
  mi_mask : Np.array2;
  mi_variance : Np.array2 }.

(** [maskedImage.getImage()] *)
Definition getImage (mi : MaskedImage) : Image := mkImage (mi_bbox mi) (mi_image mi).

(** [maskedImage.getArrays()] *)
Definition getArrays (mi : MaskedImage) : Np.array2 * Np.array2 * Np.array2 :=
  (mi_image mi, mi_mask mi, mi_variance mi).

Record Psf : Set := mkPsf { computeImage : Image }.

Record Exposure : Set := mkExposure {
  getMaskedImage : MaskedImage;
  getPsf : option Psf }.

(** A footprint: a bounding box, the pixels of the region in span order,
    and, for a heavy footprint, the value of each of those pixels. *)
Record Footprint : Set := mkFootprint {
  fp_bbox : Box;
  fp_pixels : list (Z * Z);
  getImageArray : option (list Np.float) }.

Definition isHeavy (fp : Footprint) : bool :=
  match getImageArray fp with Some _ => true | None => false end.

(** Reading the pixels of a region out of an image, in order. *)
Fixpoint flattenArray (pixels : list (Z * Z)) (im : Image) : Py.except (list Np.float) :=
  match pixels with
  | [] => Py.ok []
  | (x, y) :: rest =>
      match pixel im x y with
      | None => Py.raise Py.LengthError
      | Some v => let? vs := flattenArray rest im in Py.ok (v :: vs)
      end
  end.

(** [afwDet.HeavyFootprintF(fp, maskedImage)]: the footprint with the
    values of the image plane at its pixels. *)
Definition HeavyFootprintF (fp : Footprint) (mi : MaskedImage) : Py.except Footprint :=
  let? vs := flattenArray (fp_pixels fp) (getImage mi) in
  Py.ok (mkFootprint (fp_bbox fp) (fp_pixels fp) (Some vs)).

(** [afwDet.HeavyFootprintF_cast(fp)]: the footprint seen as a heavy
    one, [None] when it is not. *)
Definition HeavyFootprintF_cast (fp : Footprint) : option Footprint :=
  if isHeavy fp then Some fp else None.

(** [afwDet.expandArray(fp, values, dest, xy0)]: the values written back
    at the pixels of the region; [dest] is the array of an image whose
    origin is [xy0]. *)
Fixpoint expandArray (pixels : list (Z * Z)) (values : list Np.float) (dest : Image)
  : Py.except Image :=
  match pixels, values with
  | [], [] => Py.ok dest
  | (x, y) :: pixels, v :: values =>
      let? dest := set_pixel dest x y v in
      expandArray pixels values dest
  | _, _ => Py.raise Py.LengthError
  end.

Record SourceRecord : Set := mkSource {
  getId : nat;
  getFootprint : Footprint }.

(** [source.setFootprint(fp)] *)
Definition setFootprint (s : SourceRecord) (fp : Footprint) : SourceRecord :=
  mkSource (getId s) fp.

(** The point-in-box tests of the geometry package: the outcome of
    [bbox.contains(afwGeom.Point2D(x, y))] and of
    [bbox.contains(afwGeom.Point2I(x, y))], each of which may raise. *)
Class Geom : Type := {
  contains_Point2D : Box → Np.float → Np.float → Py.except bool;
  contains_Point2I : Box → Z → Z → Py.except bool }.

End Afw.

(** ** The world: plotting backend, printed output, catalogs *)

Module Plt.

Definition extent : Set := Z * Z * Z * Z.

(** What one call of [display2dArray] draws: the raster, in the current
    subplot of the current figure, with its title, its display range and
    its colour bar. *)
Record panel : Set := mkPanel {
  p_figure : nat;
  p_subplot : nat * nat * nat;
  p_title : string;
  p_extent : option extent;
  p_data : Np.array2;
  p_vmin : Q;
  p_vmax : Q;
  p_colorbar : bool }.

Record world : Type := mkWorld {
  backend : bool;                (* matplotlib.pyplot can be imported *)
  log : list string;             (* warnings sent to the default log *)
  stdout : list string;          (* lines printed *)
  figures : list (Q * Q);        (* the figures created, by size *)
  axes : nat * nat * nat;        (* the current subplot *)
  panels : list panel;           (* the panels drawn, oldest first *)
  catalogs : gmap nat (list Afw.SourceRecord) }.

(** A statement: it may raise, and it changes the world either way. *)
Definition M (A : Type) : Type := world → Py.except A * world.

Definition ret {A} (a : A) : M A := λ w, (inr a, w).
Definition throw {A} (e : Py.exn) : M A := λ w, (inl e, w).
Definition lift {A} (m : Py.except A) : M A := λ w, (m, w).

Definition bind {A B} (m : M A) (k : A → M B) : M B :=
  λ w, match m w with
       | (inl e, w') => (inl e, w')
       | (inr a, w') => k a w'
       end.

Definition modify (f : world → world) : M () := λ w, (inr (), f w).

Definition set_log (l : list string) (w : world) : world :=
  mkWorld (backend w) l (stdout w) (figures w) (axes w) (panels w) (catalogs w).
Definition set_stdout (l : list string) (w : world) : world :=
  mkWorld (backend w) (log w) l (figures w) (axes w) (panels w) (catalogs w).
Definition set_figures (l : list (Q * Q)) (w : world) : world :=
  mkWorld (backend w) (log w) (stdout w) l (axes w) (panels w) (catalogs w).
Definition set_axes (a : nat * nat * nat) (w : world) : world :=
  mkWorld (backend w) (log w) (stdout w) (figures w) a (panels w) (catalogs w).
Definition set_panels (l : list panel) (w : world) : world :=
  mkWorld (backend w) (log w) (stdout w) (figures w) (axes w) l (catalogs w).
Definition set_catalogs (c : gmap nat (list Afw.SourceRecord)) (w : world) : world :=
  mkWorld (backend w) (log w) (stdout w) (figures w) (axes w) (panels w) c.

(** [print(...)] of one line, its arguments separated by a space. *)
Definition print (line : string) : M () :=
  modify (λ w, set_stdout (stdout w ++ [line]) w).

(** [plt.figure(figsize=...)]: a new figure, which becomes the current
    one; the handle is its number. *)
Definition figure (figsize : Q * Q) : M nat :=
  λ w, (inr (length (figures w)), set_axes (1, 1, 1) (set_figures (figures w ++ [figsize]) w)).

(** [plt.subplot(nrows, ncols, index)] *)
Definition subplot (nrows ncols index : nat) : M () :=
  modify (set_axes (nrows, ncols, index)).

(** The number of the current figure; drawing with no figure creates one
    of the default size. *)
Definition gcf : M nat :=
  λ w, match figures w with
       | [] => (inr 0, set_figures [(32 # 5, 24 # 5)%Q] w)
       | _ => (inr (length (figures w) - 1), w)
       end.

(** [plt.imshow(arr, origin='lower', interpolation='none', cmap='gray',
    extent=extent, vmin=z1, vmax=z2)], [plt.title(title)] and, when asked
    for, [plt.colorbar(fig, cmap='gray')]; the handle is the index of
    the panel. *)
Definition imshow (arr : Np.array2) (ext : option extent) (vmin vmax : Q)
    (title : string) (bar : bool) : M nat :=
  bind gcf (λ f w,
    (inr (length (panels w)),
     set_panels (panels w ++ [mkPanel f (axes w) title ext arr vmin vmax bar]) w)).

End Plt.

Notation "'let!' x := m 'in' k" := (Plt.bind m (λ x, k))
  (at level 10, x pattern, m at level 100, k at level 200).

Import Plt(M, world).

(** [importMatplotlib()]: whether the plotting module is there; a warning
    is logged when it is not. *)
Definition importMatplotlib : M bool :=
  λ w, if Plt.backend w then (inr true, w)
       else (inr false, Plt.set_log (Plt.log w ++ ["Unable to import matplotlib"]) w).

(** [display2dArray(arr, title, showBars, extent)]; the default contrast of
    [zscale] is [0.25]. *)
Definition display2dArray (arr : Np.array2) (title : string) (showBars : bool)
    (extent : option Plt.extent) : M (option nat) :=
  let! plt := importMatplotlib in
  if negb plt then Plt.ret None
  else
    let! (z1, z2) := Plt.lift (zscale arr (1 # 4)) in
    let! fig := Plt.imshow arr extent z1 z2 title showBars in
    Plt.ret (Some fig).

(** The argument of [displayImages]: what the caller passes is a Python
    object, a tuple of images or something else; an image is not
    iterable. *)
Inductive images_arg : Set :=
| ATuple (images : list Afw.Image)
| AnImage (image : Afw.Image).

(** [enumerate(images)] and [len(images)] *)
Definition iterate (images : images_arg) : Py.except (list Afw.Image) :=
  match images with
  | ATuple l => Py.ok l
  | AnImage _ => Py.raise Py.TypeError
  end.

Definition bbox_extent (bbox : Afw.Box) : Plt.extent :=
  (Afw.getBeginX bbox, Afw.getEndX bbox, Afw.getBeginY bbox, Afw.getEndY bbox).

(** The body of the loop of [displayImages], from index [i] on. *)
Fixpoint displayImages_loop (len : nat) (showBars : bool) (i : nat) (images : list Afw.Image)
  : M () :=
  match images with
  | [] => Plt.ret ()
  | image :: rest =>
      let bbox := Afw.getBBox image in
      let extent := bbox_extent bbox in
      let! _ := Plt.subplot 1 len (i + 1) in
      let ma := Afw.getArray image in
      let! _ := display2dArray ma "Data" showBars (Some extent) in
      displayImages_loop len showBars (S i) rest
  end.

(** [displayImages(images, showBars, width, height)] *)
Definition displayImages (images : images_arg) (showBars : bool) (width height : Q)
  : M (option nat) :=
  let! plt := importMatplotlib in
  if negb plt then Plt.ret None
  else
    let! fig := Plt.figure (width, height) in
    let! items := Plt.lift (iterate images) in
    let! _ := displayImages_loop (length items) showBars 0 items in
    Plt.ret (Some fig).

(** [displayImage(image, showBars, width, height)]: [(image)] is the image
    itself, and the three other arguments are not passed on. *)
Definition displayImage (image : Afw.Image) (showBars : bool) (width height : Q)
  : M (option nat) :=
  displayImages (AnImage image) true 8 (5 # 2).

(** [displayMaskedImage(maskedImage, showMasks, showVariance, showBars,
    width, height)] *)
Definition displayMaskedImage (maskedImage : Afw.MaskedImage)
    (showMasks showVariance showBars : bool) (width height : Q) : M (option nat) :=
  let! plt := importMatplotlib in
  if negb plt then Plt.ret None
  else
    let! fig := Plt.figure (width, height) in
    let bbox := Afw.mi_bbox maskedImage in
    let extent := bbox_extent bbox in
    let! _ := Plt.subplot 1 3 1 in
    let ma := Afw.getArrays maskedImage in
    let! _ := display2dArray ma.1.1 "Data" showBars (Some extent) in
    let! _ := if showMasks then
                let! _ := Plt.subplot 1 3 2 in
                display2dArray ma.1.2 "Masks" showBars (Some extent)
              else Plt.ret None in
    let! _ := if showVariance then
                let! _ := Plt.subplot 1 3 3 in
                display2dArray ma.2 "Variance" showBars (Some extent)
              else Plt.ret None in
    Plt.ret (Some fig).

(** [displayExposure(exposure, showMasks, showVariance, showPsf, showBars,
    width, height)] *)
Definition displayExposure (exposure : Afw.Exposure)
    (showMasks showVariance showPsf showBars : bool) (width height : Q) : M (option nat) :=
  let! plt := importMatplotlib in
  if negb plt then Plt.ret None
  else
    let! fig := displayMaskedImage (Afw.getMaskedImage exposure) showMasks
                  (negb showPsf) showBars width height in
    let! _ := if showPsf then
                let! _ := Plt.subplot 1 3 3 in
                match Afw.getPsf exposure with
                | None => Plt.throw Py.AttributeError
                | Some psf =>
                    let psfIm := Afw.computeImage psf in
                    let bbox := Afw.getBBox psfIm in
                    let extent := bbox_extent bbox in
                    display2dArray (Afw.getArray psfIm) "PSF" showBars (Some extent)
                end
              else Plt.ret None in
    Plt.ret fig.

(** [getHeavyFootprintSubimage(fp, badfill, grow)] *)
Definition getHeavyFootprintSubimage (fp : Afw.Footprint) (badfill : Np.float) (grow : Z)
  : Py.except Afw.Image :=
  match Afw.HeavyFootprintF_cast fp with
  | None => Py.raise Py.AttributeError
  | Some hfp =>
      let bbox := Afw.fp_bbox hfp in
      let bbox := if (0 <? grow)%Z then Afw.grow bbox grow else bbox in
      let subim2 := Afw.ImageF_fill bbox badfill in
      match Afw.getImageArray hfp with
      | None => Py.raise Py.AttributeError
      | Some values => Afw.expandArray (Afw.fp_pixels hfp) values subim2
      end
  end.

(** [displayCutouts(source, exposure, posImage, negImage, asHeavyFootprint,
    title, figsize)]; an absent secondary exposure is [None]. *)
Definition displayCutouts (source : Afw.SourceRecord) (exposure : Afw.Exposure)
    (posImage negImage : option Afw.Exposure) (asHeavyFootprint : bool)
    (title : string) (figsize : Q * Q) : M (option nat) :=
  let! plt := importMatplotlib in
  if negb plt then Plt.ret None
  else
    let fp := Afw.getFootprint source in
    let bbox := Afw.fp_bbox fp in
    let extent := bbox_extent bbox in
    let! fig := Plt.figure figsize in
    let! subexp :=
      Plt.lift
        (if negb asHeavyFootprint then
           Afw.ImageF_sub (Afw.getImage (Afw.getMaskedImage exposure)) bbox
         else
           let? hfp := Afw.HeavyFootprintF fp (Afw.getMaskedImage exposure) in
           getHeavyFootprintSubimage hfp Np.NaN 0) in
    let! _ := Plt.subplot 1 3 1 in
    let! _ := display2dArray (Afw.getArray subexp) (title +:+ " Diffim") true (Some extent) in
    let! _ :=
      match posImage with
      | Some posImage =>
          let! subexp :=
            Plt.lift
              (if negb asHeavyFootprint then
                 Afw.ImageF_sub (Afw.getImage (Afw.getMaskedImage posImage)) bbox
               else
                 let? hfp := Afw.HeavyFootprintF fp (Afw.getMaskedImage posImage) in
                 getHeavyFootprintSubimage hfp Np.NaN 0) in
          let! _ := Plt.subplot 1 3 2 in
          display2dArray (Afw.getArray subexp) (title +:+ " Pos") true (Some extent)
      | None => Plt.ret None
      end in
    let! _ :=
      match negImage with
      | Some negImage =>
          let! subexp :=
            Plt.lift
              (if negb asHeavyFootprint then
                 Afw.ImageF_sub (Afw.getImage (Afw.getMaskedImage negImage)) bbox
               else
                 let? hfp := Afw.HeavyFootprintF fp (Afw.getMaskedImage negImage) in
                 getHeavyFootprintSubimage hfp Np.NaN 0) in
          let! _ := Plt.subplot 1 3 3 in
          display2dArray (Afw.getArray subexp) (title +:+ " Neg") true (Some extent)
      | None => Plt.ret None
      end in
    Plt.ret (Some fig).

(** ** Catalog helpers *)

(** A catalog is an object of the world, named by a reference; its records
    are changed in place.  A reference that names no catalog reads as a
    catalog without records. *)
Definition get_catalog (catalog : nat) : M (list Afw.SourceRecord) :=
  λ w, (inr (Plt.catalogs w !!! catalog), w).

(** [source.setFootprint(fp)] on record [i] of the catalog. *)
Definition set_record_footprint (catalog i : nat) (fp : Afw.Footprint) : M () :=
  Plt.modify (λ w,
    Plt.set_catalogs (alter (alter (λ s, Afw.setFootprint s fp) i) catalog (Plt.catalogs w)) w).

(** The body of the loop of [makeHeavyCatalog], from index [i] on. *)
Fixpoint makeHeavyCatalog_loop (catalog : nat) (exposure : Afw.Exposure) (verbose : bool)
    (i : nat) (records : list Afw.SourceRecord) : M () :=
  match records with
  | [] => Plt.ret ()
  | source :: rest =>
      let fp := Afw.getFootprint source in
      let! _ :=
        if negb (Afw.isHeavy fp) then
          let! _ := if verbose then Plt.print (pretty i +:+ " not heavy => heavy")
                    else Plt.ret () in
          let! hfp := Plt.lift (Afw.HeavyFootprintF fp (Afw.getMaskedImage exposure)) in
          set_record_footprint catalog i hfp
        else Plt.ret () in
      makeHeavyCatalog_loop catalog exposure verbose (S i) rest
  end.

(** [makeHeavyCatalog(catalog, exposure, verbose)] *)
Definition makeHeavyCatalog (catalog : nat) (exposure : Afw.Exposure) (verbose : bool)
  : M nat :=
  let! records := get_catalog catalog in
  let! _ := makeHeavyCatalog_loop catalog exposure verbose 0 records in
  Plt.ret catalog.

(** [int(x)] on a float; not-a-number cannot be converted. *)
Definition int_of_float (x : Np.float) : Py.except Z :=
  match x with
  | Np.NaN => Py.raise Py.ValueError
  | Np.Fin q => Py.ok (Py.int q)
  end.

(** The body of the loop of [searchCatalog], from index [i] on.  Whatever
    the first test raises is caught; what the second raises is not. *)
Fixpoint searchCatalog_loop `{Afw.Geom} (x y : Np.float) (i : nat)
    (records : list Afw.SourceRecord) : M (option Afw.SourceRecord) :=
  match records with
  | [] => Plt.ret None
  | s :: rest =>
      let bbox := Afw.fp_bbox (Afw.getFootprint s) in
      match Afw.contains_Point2D bbox x y with
      | inr true => let! _ := Plt.print (pretty i) in Plt.ret (Some s)
      | inr false => searchCatalog_loop x y (S i) rest
      | inl _ =>
          let! hit := Plt.lift (let? xi := int_of_float x in
                                let? yi := int_of_float y in
                                Afw.contains_Point2I bbox xi yi) in
          if hit : bool then let! _ := Plt.print (pretty i) in Plt.ret (Some s)
          else searchCatalog_loop x y (S i) rest
      end
  end.

(** [searchCatalog(catalog, x, y)] *)
Definition searchCatalog `{Afw.Geom} (catalog : nat) (x y : Np.float)
  : M (option Afw.SourceRecord) :=
  let! records := get_catalog catalog in
  searchCatalog_loop x y 0 records.

(** ** Callers on a dipole test image *)

(** [ip_diffim.utils.DipoleTestImage], as far as this module reads it. *)
Record DipoleTestImage : Set := mkDipoleTestImage {
  diffim : Afw.Exposure;
  posImage : Afw.Exposure;
  negImage : Afw.Exposure }.

(** [dpDisplayImages(dipoleImage)]; the three calls take the default
    arguments, and nothing is returned. *)
Definition dpDisplayImages (dipoleImage : DipoleTestImage) : M () :=
  let! _ := displayExposure (diffim dipoleImage) true false false true 8 (5 # 2) in
  let! _ := displayExposure (posImage dipoleImage) true false false true 8 (5 # 2) in
  let! _ := displayExposure (negImage dipoleImage) true false false true 8 (5 # 2) in
  Plt.ret ().

(** [dpDisplayCutouts(dipoleImage, source, asHeavyFootprint)]; the title
    and the figure size are the default ones, and nothing is returned. *)
Definition dpDisplayCutouts (dipoleImage : DipoleTestImage) (source : Afw.SourceRecord)
    (asHeavyFootprint : bool) : M () :=
  let! _ := displayCutouts source (diffim dipoleImage) (Some (posImage dipoleImage))
              (Some (negImage dipoleImage)) asHeavyFootprint "" (8, 5 # 2)%Q in
  Plt.ret ().

(** ** The estimator as the specification words it *)

(** Two ranges agree when they fail alike or hold equal numbers. *)
Definition same_range (r1 r2 : Py.except (Q * Q)) : Prop :=
  match r1, r2 with
  | inl e1, inl e2 => e1 = e2
  | inr (a1, b1), inr (a2, b2) => (a1 == a2)%Q ∧ (b1 == b2)%Q
  | _, _ => False
  end.

(** The symmetric trim: the [k] lowest and the [k] highest of a sorted
    sequence are discarded, [k] being a tenth of its length. *)
Definition trim (samples : list Q) : list Q :=
  let k := length samples / 10 in
  drop k (take (length samples - k) samples).

(** The steps in the words of the specification: flatten, drop
    not-a-number, sort, trim a tenth at each end, centre on the middle
    index, fit a line against (index - centre index); the lower bound is
    taken one unit below the first index and the upper bound the trimmed
    length above it, both offsets scaled by slope / contrast and added to
    the centre value. *)
Definition zscale_spec (input_img : Np.array2) (contrast : Q) : Py.except (Q * Q) :=
  let subset := trim (Np.sort (Np.drop_nan (Np.flatten input_img))) in
  let center_index := length subset / 2 in
  let? center := Py.getitem subset center_index in
  let? fit := Np.polyfit1 (Np.arange_minus (length subset) center_index) subset in
  let first := (0 - Np.Qnat center_index)%Q in
  let low := (center + (first - 1) * (fit.1 / contrast))%Q in
  let high := (center + (first + Np.Qnat (length subset)) * (fit.1 / contrast))%Q in
  Py.ok (low, high).

(** ** Notions used in the statements *)

(** The numerator of the fitted slope. *)
Definition cov (xs ys : list Q) : Q :=
  (Np.Qnat (length xs) * Np.Qsum (zip_with Qmult xs ys) - Np.Qsum xs * Np.Qsum ys)%Q.

(** The real samples of an array, in row-major order. *)
Definition finite_samples (input_img : Np.array2) : list Q :=
  Np.drop_nan (Np.flatten input_img).

(** The trimmed subset as [zscale] computes it. *)
Definition zscale_subset (input_img : Np.array2) : list Q :=
  let samples := Np.sort (Np.drop_nan (Np.flatten input_img)) in
  let chop_size := Z.of_nat (length samples / 10) in
  Py.slice samples chop_size (- chop_size)%Z.

(** [l'] is [l] with not-a-number values inserted at arbitrary places. *)
Inductive nan_inserted : list Np.float → list Np.float → Prop :=
| nan_inserted_nil : nan_inserted [] []
| nan_inserted_keep v l l' : nan_inserted l l' → nan_inserted (v :: l) (v :: l')
| nan_inserted_nan l l' : nan_inserted l l' → nan_inserted l (Np.NaN :: l').

(** What [displayCutouts] extracts from one exposure: the plain crop at the
    bounding box of the footprint, or the expansion of the heavy footprint
    built on that exposure. *)
Definition cutout (asHeavyFootprint : bool) (fp : Afw.Footprint) (exposure : Afw.Exposure)
  : Py.except Afw.Image :=
  if negb asHeavyFootprint then
    Afw.ImageF_sub (Afw.getImage (Afw.getMaskedImage exposure)) (Afw.fp_bbox fp)
  else
    let? hfp := Afw.HeavyFootprintF fp (Afw.getMaskedImage exposure) in
    getHeavyFootprintSubimage hfp Np.NaN 0.

(** The secondary exposures that are supplied, in panel order. *)
Definition supplied (posImage negImage : option Afw.Exposure) : list Afw.Exposure :=
  option_list posImage ++ option_list negImage.

(** The titles of the secondary panels that go with them. *)
Definition secondary_titles (title : string) (posImage negImage : option Afw.Exposure)
  : list string :=
  match posImage with Some _ => [title +:+ " Pos"] | None => [] end ++
  match negImage with Some _ => [title +:+ " Neg"] | None => [] end.

(** The places of the secondary panels in the 1 x 3 grid: the second for
    the positive exposure, the third for the negative one. *)
Definition secondary_places (posImage negImage : option Afw.Exposure)
  : list (nat * nat * nat) :=
  match posImage with Some _ => [(1, 3, 2)] | None => [] end ++
  match negImage with Some _ => [(1, 3, 3)] | None => [] end.

(** [data], laid out at the bounding box of [fp], is not-a-number outside
    the pixel set of [fp] and the image plane of [exposure] inside it. *)
Definition masked_by_footprint (fp : Afw.Footprint) (exposure : Afw.Exposure)
    (data : Np.array2) : Prop :=
  ∀ x y, Afw.inside (Afw.fp_bbox fp) x y = true →
    if decide ((x, y) ∈ Afw.fp_pixels fp) then
      ∃ v, Afw.pixel (Afw.getImage (Afw.getMaskedImage exposure)) x y = Some v ∧
           Afw.pixel (Afw.mkImage (Afw.fp_bbox fp) data) x y = Some v
    else Afw.pixel (Afw.mkImage (Afw.fp_bbox fp) data) x y = Some Np.NaN.

(** Whether the bounding box holds the point, the way [searchCatalog]
    decides it: the floating-point test, and the integer test on the
    truncated coordinates when the first one raises. *)
Definition point_in_bbox `{Afw.Geom} (x y : Np.float) (bbox : Afw.Box) : Py.except bool :=
  match Afw.contains_Point2D bbox x y with
  | inr b => inr b
  | inl _ =>
      let? xi := int_of_float x in
      let? yi := int_of_float y in
      Afw.contains_Point2I bbox xi yi
  end.

(** The records of a catalog in a world. *)
Definition records_of (catalog : nat) (w : world) : list Afw.SourceRecord :=
  Plt.catalogs w !!! catalog.

(** What [makeHeavyCatalog] makes of one record: a heavy footprint is
    kept, a light one is replaced by the heavy footprint built on the
    exposure. *)
Definition upgraded (exposure : Afw.Exposure) (s s' : Afw.SourceRecord) : Prop :=
  if Afw.isHeavy (Afw.getFootprint s) then s' = s
  else ∃ hfp, Afw.HeavyFootprintF (Afw.getFootprint s) (Afw.getMaskedImage exposure)
              = inr hfp ∧ s' = Afw.setFootprint s hfp.

(** [w'] is [w] with the panels [new] drawn after the others; what is
    printed and the catalogs are as before. *)
Definition draws (w w' : world) (new : list Plt.panel) : Prop :=
  Plt.backend w' = Plt.backend w ∧
  Plt.panels w' = Plt.panels w ++ new ∧
  Plt.stdout w' = Plt.stdout w ∧
  Plt.catalogs w' = Plt.catalogs w.

(** The lines that a verbose [makeHeavyCatalog] prints for the records
    from index [i] on: one for each light footprint. *)
Fixpoint upgrade_lines (i : nat) (records : list Afw.SourceRecord) : list string :=
  match records with
  | [] => []
  | s :: rest =>
      (if Afw.isHeavy (Afw.getFootprint s) then []
       else [pretty i +:+ " not heavy => heavy"]) ++ upgrade_lines (S i) rest
  end.

(** What [zscale] makes of the trimmed subset: its last four statements. *)
Definition range_of_subset (subset : list Q) (contrast : Q) : Py.except (Q * Q) :=
  let i_midpoint := length subset / 2 in
  let? I_mid := Py.getitem subset i_midpoint in
  let? fit := Np.polyfit1 (Np.arange_minus (length subset) i_midpoint) subset in
  let z1 := (I_mid + fit.1 / contrast * (1 - Np.Qnat i_midpoint) / 1)%Q in
  let z2 := (I_mid + fit.1 / contrast * (Np.Qnat (length subset) - Np.Qnat i_midpoint) / 1)%Q in
  Py.ok (z1, z2).

(** The world with one more panel. *)
Definition drawn (w : world) (p : Plt.panel) : world :=
  Plt.set_panels (Plt.panels w ++ [p]) w.

(** [p] is what [display2dArray(arr, title, showBars, extent)] draws in the
    subplot [subplot] of the figure [fig]: the array under its title, at
    its extent, clipped to the range of [zscale]. *)
Definition panel_for (fig : nat) (subplot : nat * nat * nat) (title : string)
    (extent : option Plt.extent) (arr : Np.array2) (showBars : bool) (p : Plt.panel)
  : Prop :=
  Plt.p_figure p = fig ∧ Plt.p_subplot p = subplot ∧ Plt.p_title p = title ∧
  Plt.p_extent p = extent ∧ Plt.p_data p = arr ∧ Plt.p_colorbar p = showBars ∧
  zscale arr (1 # 4) = Py.ok (Plt.p_vmin p, Plt.p_vmax p).

(** The panels [new] are those of a plan: one panel for each entry, in
    order, drawn by [display2dArray] in the figure [fig] at the place, under
    the title, at the extent and from the array of the entry. *)
Definition panels_are (fig : nat) (showBars : bool) (new : list Plt.panel)
    (plan : list (nat * nat * nat * string * option Plt.extent * list (list Np.float)))
  : Prop :=
  Forall2 (λ p e, panel_for fig e.1.1.1 e.1.1.2 e.1.2 e.2 showBars p) new plan.

(** What [displayMaskedImage] is to draw. *)
Definition masked_plan (maskedImage : Afw.MaskedImage) (showMasks showVariance : bool)
  : list (nat * nat * nat * string * option Plt.extent * list (list Np.float)) :=
  let extent := Some (bbox_extent (Afw.mi_bbox maskedImage)) in
  [((1, 3, 1), "Data", extent, Afw.mi_image maskedImage)] ++
  (if showMasks then [((1, 3, 2), "Masks", extent, Afw.mi_mask maskedImage)] else []) ++
  (if showVariance then [((1, 3, 3), "Variance", extent, Afw.mi_variance maskedImage)]
   else []).

(** What [displayExposure] is to draw on an exposure that has the PSF it
    is asked to show: its argument [showVariance] plays no part. *)
Definition exposure_plan (exposure : Afw.Exposure) (showMasks showPsf : bool)
  : list (nat * nat * nat * string * option Plt.extent * list (list Np.float)) :=
  masked_plan (Afw.getMaskedImage exposure) showMasks (negb showPsf) ++
  (if showPsf then
     match Afw.getPsf exposure with
     | Some psf =>
         let psfIm := Afw.computeImage psf in
         [((1, 3, 3), "PSF", Some (bbox_extent (Afw.getBBox psfIm)), Afw.getArray psfIm)]
     | None => []
     end
   else []).

(** What [displayImages] is to draw for the images from index [i] on, out
    of [len]. *)
Fixpoint images_plan (len i : nat) (images : list Afw.Image)
  : list (nat * nat * nat * string * option Plt.extent * list (list Np.float)) :=
  match images with
  | [] => []
  | image :: rest =>
      ((1, len, i + 1), "Data", Some (bbox_extent (Afw.getBBox image)), Afw.getArray image)
      :: images_plan len (S i) rest
  end.

(** The three planes of the exposure hold ten real samples each. *)
Definition showable (exposure : Afw.Exposure) : Prop :=
  10 ≤ length (finite_samples (Afw.mi_image (Afw.getMaskedImage exposure))) ∧
  10 ≤ length (finite_samples (Afw.mi_mask (Afw.getMaskedImage exposure))) ∧
  10 ≤ length (finite_samples (Afw.mi_variance (Afw.getMaskedImage exposure))).

(** [data], laid out at the bounding box of [fp], is the image plane of
    [exposure] on that box. *)
Definition cropped_at_footprint (fp : Afw.Footprint) (exposure : Afw.Exposure)
    (data : Np.array2) : Prop :=
  ∀ x y, Afw.inside (Afw.fp_bbox fp) x y = true →
    Afw.pixel (Afw.mkImage (Afw.fp_bbox fp) data) x y
    = Afw.pixel (Afw.getImage (Afw.getMaskedImage exposure)) x y.

(** The world after the warning of [importMatplotlib]. *)
Definition warned (w : world) : world :=
  Plt.set_log (Plt.log w ++ ["Unable to import matplotlib"]) w.

(** ** Sample data *)

(** A row of the integers [start, start + 1, ...]. *)
Definition ramp (start n : nat) : list Np.float :=
  (λ i, Np.Fin (Np.Qnat i)) <$> seq start n.

(** A row of the integers [start, start + 1, ...] in the exact model. *)
Definition xramp (start n : nat) : list Ieee.xfloat :=
  (λ i, Ieee.XFin (Np.Qnat i)) <$> seq start n.

(** The geometry package with integer boxes only: the test of a
    floating-point point is refused. *)
Definition integer_boxes : Afw.Geom :=
  {| Afw.contains_Point2D := λ _ _ _, Py.raise Py.TypeError;
     Afw.contains_Point2I := λ bbox x y, Py.ok (Afw.inside bbox x y) |}.

(** A 6 x 4 exposure whose pixel [(x, y)] holds [10 * y + x]. *)
Definition sample_exposure : Afw.Exposure :=
  Afw.mkExposure
    (Afw.mkMaskedImage (Afw.mkBox 0 6 0 4)
       ((λ j, ramp (10 * j) 6) <$> seq 0 4)
       (replicate 4 (replicate 6 (Np.Fin 0)))
       ((λ j, ramp (100 + j) 6) <$> seq 0 4))
    None.

(** Ten pixels of the box [1, 5) x [1, 4); two corners are left out. *)
Definition sample_footprint : Afw.Footprint :=
  Afw.mkFootprint (Afw.mkBox 1 5 1 4)
    [(2, 1); (3, 1); (1, 2); (2, 2); (3, 2); (4, 2); (1, 3); (2, 3); (3, 3); (4, 3)]%Z
    None.

Definition sample_source : Afw.SourceRecord := Afw.mkSource 7 sample_footprint.

(** A second source, away from the first one. *)
Definition other_source : Afw.SourceRecord :=
  Afw.mkSource 8 (Afw.mkFootprint (Afw.mkBox 5 6 0 1) [(5, 0)]%Z None).

(** A heavy footprint of three pixels in the box [0, 3) x [0, 2). *)
Definition heavy_footprint : Afw.Footprint :=
  Afw.mkFootprint (Afw.mkBox 0 3 0 2) [(0, 0); (1, 0); (2, 1)]%Z
    (Some [Np.Fin 4; Np.Fin 5; Np.Fin 6]).

(** A world with a backend and one catalog, under the reference [0]. *)
Definition sample_world : world :=
  Plt.mkWorld true [] [] [] (1, 1, 1) [] {[ 0 := [other_source; sample_source] ]}.


(* ================================================================== *)
(** * Properties *)

(** ** Exact arithmetic on sums *)

Section sums.

Local Open Scope Q_scope.

Lemma Qnat_S n : Np.Qnat (S n) == Np.Qnat n + 1.
Proof.
  unfold Np.Qnat. rewrite Nat2Z.inj_succ, <- Z.add_1_r, inject_Z_plus. reflexivity.
Qed.

End sums.

(** ** Sorting and trimming *)

Section sorting.

Lemma Qle_total : Total Qle.
Proof. intros x y. destruct (Qlt_le_dec x y); [left; by apply Qlt_le_weak|by right]. Qed.

Lemma Qle_transitive : Transitive Qle.
Proof. intros x y z. apply Qle_trans. Qed.

Lemma sort_sorted l : StronglySorted Qle (Np.sort l).
Proof.
  apply @StronglySorted_merge_sort; [apply Qle_transitive|apply Qle_total].
Qed.

Lemma sort_length l : length (Np.sort l) = length l.
Proof. unfold Np.sort. by rewrite merge_sort_Permutation. Qed.

Lemma trim_length l : length (trim l) = length l - 2 * (length l / 10).
Proof.
  unfold trim. rewrite length_drop, length_take.
  pose proof (Nat.Div0.mul_div_le (length l) 10). lia.
Qed.

(** With at least one element chopped at each end, the slice
    [samples[k:-k]] is the symmetric trim. *)
Lemma slice_trim (l : list Q) :
  10 ≤ length l →
  Py.slice l (Z.of_nat (length l / 10)) (- Z.of_nat (length l / 10)) = trim l.
Proof.
  intros Hlen. unfold Py.slice, Py.slice_bound, trim.
  pose proof (Nat.Div0.mul_div_le (length l) 10) as Hk.
  assert (1 ≤ length l / 10) as Hk1.
  { change 1%nat with (10 / 10)%nat. by apply Nat.Div0.div_le_mono. }
  set (k := length l / 10) in *.
  destruct (Z.ltb_spec (Z.of_nat k) 0); [lia|].
  destruct (Z.ltb_spec (- Z.of_nat k) 0); [|lia].
  rewrite take_drop_commute. f_equal; [|f_equal]; lia.
Qed.

(** With nothing to chop, the slice [samples[0:-0]] is empty. *)
Lemma slice_short {A} (l : list A) :
  length l < 10 →
  Py.slice l (Z.of_nat (length l / 10)) (- Z.of_nat (length l / 10)) = [].
Proof.
  intros Hlen. rewrite Nat.div_small by done.
  unfold Py.slice, Py.slice_bound. simpl. by rewrite Nat.sub_diag.
Qed.

Lemma arange_minus_length n k : length (Np.arange_minus n k) = n.
Proof. unfold Np.arange_minus. by rewrite length_fmap, length_seq. Qed.

End sorting.

(** ** The fitted slope *)

Section slope.

Local Open Scope Q_scope.

Lemma polyfit1_ok x y :
  length x = length y → length x ≠ 0%nat →
  Np.polyfit1 x y =
    Py.ok (cov x y / cov x x, (Np.Qsum y - cov x y / cov x x * Np.Qsum x) / Np.Qnat (length x)).
Proof.
  intros Hlen Hne. unfold Np.polyfit1.
  destruct (decide (length x = 0%nat)); [done|].
  destruct (decide (length x ≠ length y)); done.
Qed.

(** The sums of the residuals of a line, plain and weighted by the
    abscissa. *)
Lemma residual_sums a b x y :
  length x = length y →
  Np.Qsum (zip_with (λ xi yi, yi - (a * xi + b)) x y)
    == Np.Qsum y - a * Np.Qsum x - Np.Qnat (length x) * b ∧
  Np.Qsum (zip_with (λ xi yi, xi * (yi - (a * xi + b))) x y)
    == Np.Qsum (zip_with Qmult x y) - a * Np.Qsum (zip_with Qmult x x) - b * Np.Qsum x.
Proof.
  revert y. induction x as [|xi x IH]; intros [|yi y] Hlen; simplify_eq/=.
  - unfold Np.Qnat. simpl. split; ring.
  - destruct (IH y Hlen) as [IH1 IH2]. rewrite IH1, IH2, Qnat_S. split; ring.
Qed.

(** The fitted line is the least-squares line: its residuals sum to zero,
    and so do their products with the abscissae. *)
Lemma polyfit1_normal_equations x y a b :
  Np.polyfit1 x y = Py.ok (a, b) →
  ¬ cov x x == 0 →
  Np.Qsum (zip_with (λ xi yi, yi - (a * xi + b)) x y) == 0 ∧
  Np.Qsum (zip_with (λ xi yi, xi * (yi - (a * xi + b))) x y) == 0.
Proof.
  unfold Np.polyfit1.
  destruct (decide (length x = 0%nat)) as [|Hne]; [done|].
  destruct (decide (length x ≠ length y)) as [|Hlen%dec_stable]; [done|].
  intros [= Ha Hb] Hdet.
  change (cov x y / cov x x = a) in Ha.
  change ((Np.Qsum y - cov x y / cov x x * Np.Qsum x) / Np.Qnat (length x) = b) in Hb.
  rewrite Ha in Hb.
  assert (¬ Np.Qnat (length x) == 0) as Hn.
  { unfold Np.Qnat. change 0 with (inject_Z 0). rewrite inject_Z_injective. lia. }
  destruct (residual_sums a b x y Hlen) as [-> ->].
  assert (a * cov x x == cov x y) as Hslope.
  { rewrite <- Ha. field. exact Hdet. }
  assert (Np.Qnat (length x) * b == Np.Qsum y - a * Np.Qsum x) as Hint.
  { rewrite <- Hb. field. exact Hn. }
  unfold cov in Hslope.
  set (n := Np.Qnat (length x)) in *.
  set (sx := Np.Qsum x) in *. set (sy := Np.Qsum y) in *.
  set (sxy := Np.Qsum (zip_with Qmult x y)) in *.
  set (sxx := Np.Qsum (zip_with Qmult x x)) in *.
  split; [lra|].
  assert (n * (sxy - a * sxx - b * sx) == 0) as Hzero by nra.
  apply Qmult_integral in Hzero as [Hzero|Hzero]; [by destruct Hn|done].
Qed.

End slope.

(** ** The contrast estimator *)

Section zscale_facts.

Local Open Scope Q_scope.

Lemma zscale_unfold input_img contrast :
  zscale input_img contrast =
    let subset := zscale_subset input_img in
    let i_midpoint := (length subset / 2)%nat in
    let? I_mid := Py.getitem subset i_midpoint in
    let? fit := Np.polyfit1 (Np.arange_minus (length subset) i_midpoint) subset in
    Py.ok (I_mid + fit.1 / contrast * (1 - Np.Qnat i_midpoint) / 1,
           I_mid + fit.1 / contrast * (Np.Qnat (length subset) - Np.Qnat i_midpoint) / 1).
Proof. reflexivity. Qed.

(** Ten real samples or more: the subset is the symmetric trim. *)
Lemma zscale_subset_trim input_img :
  (10 ≤ length (finite_samples input_img))%nat →
  zscale_subset input_img = trim (Np.sort (finite_samples input_img)).
Proof.
  intros Hlen. unfold zscale_subset. cbv zeta.
  apply slice_trim. by rewrite sort_length.
Qed.

(** Fewer than ten: the subset is empty. *)
Lemma zscale_subset_short input_img :
  (length (finite_samples input_img) < 10)%nat → zscale_subset input_img = [].
Proof.
  intros Hlen. unfold zscale_subset. cbv zeta.
  apply slice_short. by rewrite sort_length.
Qed.

Lemma zscale_subset_long input_img :
  (10 ≤ length (finite_samples input_img))%nat →
  (8 ≤ length (zscale_subset input_img))%nat.
Proof.
  intros Hlen. rewrite zscale_subset_trim, trim_length, sort_length by done.
  pose proof (Nat.Div0.mul_div_le (length (finite_samples input_img)) 10). lia.
Qed.

(** The subset never has exactly one element. *)
Lemma zscale_subset_length input_img :
  zscale_subset input_img = [] ∨ (8 ≤ length (zscale_subset input_img))%nat.
Proof.
  destruct (decide (length (finite_samples input_img) < 10)%nat) as [Hlt|Hge].
  - left. by apply zscale_subset_short.
  - right. apply zscale_subset_long. lia.
Qed.

(** The result of [zscale] on a non-empty subset. *)
Lemma zscale_value input_img contrast :
  let subset := zscale_subset input_img in
  let mid := (length subset / 2)%nat in
  let x := Np.arange_minus (length subset) mid in
  subset ≠ [] →
  ∃ center,
    subset !! mid = Some center ∧
    zscale input_img contrast =
      Py.ok (center + cov x subset / cov x x / contrast * (1 - Np.Qnat mid) / 1,
             center + cov x subset / cov x x / contrast
                      * (Np.Qnat (length subset) - Np.Qnat mid) / 1).
Proof.
  intros subset mid x Hne.
  assert (0 < length subset)%nat as Hpos by (destruct subset; simpl; [done|lia]).
  assert (mid < length subset)%nat as Hmid by (apply Nat.Div0.div_lt_upper_bound; lia).
  destruct (lookup_lt_is_Some_2 subset mid Hmid) as [center Hcenter].
  exists center. split; [done|].
  rewrite zscale_unfold. cbv zeta. fold subset. fold mid. fold x.
  unfold Py.getitem. rewrite Hcenter. simpl.
  rewrite polyfit1_ok; [done| |]; unfold x; rewrite arange_minus_length; [done|lia].
Qed.

(** Ten real samples are enough for [zscale] to return a range. *)
Lemma zscale_ok input_img contrast :
  (10 ≤ length (finite_samples input_img))%nat →
  ∃ z1 z2, zscale input_img contrast = Py.ok (z1, z2).
Proof.
  intros Hlen. pose proof (zscale_subset_long input_img Hlen) as Hsub.
  destruct (zscale_value input_img contrast) as (center & _ & ->); [|by eexists _, _].
  intros Hnil. rewrite Hnil in Hsub. simpl in Hsub. lia.
Qed.

(** The result of [zscale] on an empty subset. *)
Lemma zscale_empty input_img contrast :
  zscale_subset input_img = [] → zscale input_img contrast = Py.raise Py.IndexError.
Proof. intros Hnil. rewrite zscale_unfold. cbv zeta. by rewrite Hnil. Qed.

(** The survivors of [drop_nan] are the entries that [isnan] rejects. *)
Lemma drop_nan_isnan l :
  Np.Fin <$> Np.drop_nan l = filter (λ v, Np.isnan v = false) l.
Proof.
  induction l as [|[|q] l IH]; [done| |]; rewrite filter_cons; simpl.
  - exact IH.
  - by f_equal.
Qed.

Lemma nan_inserted_drop_nan l l' : nan_inserted l l' → Np.drop_nan l' = Np.drop_nan l.
Proof.
  induction 1 as [|v l l' _ IH|l l' _ IH]; simpl; [done| |done].
  destruct v; simpl; [done|]. by rewrite IH.
Qed.

(** [zscale] looks at the real samples only. *)
Lemma zscale_finite_samples a a' contrast :
  finite_samples a' = finite_samples a → zscale a' contrast = zscale a contrast.
Proof.
  intros Heq. rewrite !zscale_unfold. unfold zscale_subset.
  unfold finite_samples in Heq. by rewrite Heq.
Qed.

End zscale_facts.

(** ** Running a statement in a world *)

Section world_facts.

Lemma importMatplotlib_present w :
  Plt.backend w = true → importMatplotlib w = (inr true, w).
Proof. intros Hb. unfold importMatplotlib. by rewrite Hb. Qed.

(** With a backend, [display2dArray] raises whatever [zscale] raises, and
    draws nothing. *)
Lemma display2dArray_raise arr title showBars extent w e :
  Plt.backend w = true → zscale arr (1 # 4) = inl e →
  display2dArray arr title showBars extent w = (inl e, w).
Proof.
  intros Hb Hz. unfold display2dArray, Plt.bind.
  rewrite importMatplotlib_present by done. simpl.
  unfold Plt.lift. by rewrite Hz.
Qed.

Lemma bind_inr {A B} (m : M A) (k : A → M B) w b w2 :
  Plt.bind m k w = (inr b, w2) → ∃ a w1, m w = (inr a, w1) ∧ k a w1 = (inr b, w2).
Proof. unfold Plt.bind. destruct (m w) as [[e|a] w1]; [done|eauto]. Qed.

Lemma bind_run {A B} (m : M A) (k : A → M B) w a w1 :
  m w = (inr a, w1) → Plt.bind m k w = k a w1.
Proof. unfold Plt.bind. by intros ->. Qed.

Lemma lift_inr {A} (m : Py.except A) w a w1 :
  Plt.lift m w = (inr a, w1) → m = inr a ∧ w1 = w.
Proof. unfold Plt.lift. by intros [= -> ->]. Qed.

Lemma ret_inr {A} (a b : A) w w1 : Plt.ret a w = (inr b, w1) → b = a ∧ w1 = w.
Proof. unfold Plt.ret. by intros [= -> ->]. Qed.

Lemma draws_refl w : draws w w [].
Proof. unfold draws. by rewrite app_nil_r. Qed.

Lemma draws_trans w1 w2 w3 new1 new2 :
  draws w1 w2 new1 → draws w2 w3 new2 → draws w1 w3 (new1 ++ new2).
Proof.
  intros (Hb1 & Hp1 & Ho1 & Hc1) (Hb2 & Hp2 & Ho2 & Hc2). unfold draws.
  rewrite Hb2, Hb1, Hp2, Hp1, Ho2, Ho1, Hc2, Hc1. by rewrite (assoc_L (++)).
Qed.

Lemma figure_draws figsize w f w1 :
  Plt.figure figsize w = (inr f, w1) → f = length (Plt.figures w) ∧ draws w w1 [].
Proof.
  unfold Plt.figure. intros [= <- <-]. split; [done|].
  unfold draws. simpl. by rewrite app_nil_r.
Qed.

Lemma subplot_draws nrows ncols index w u w1 :
  Plt.subplot nrows ncols index w = (inr u, w1) →
  draws w w1 [] ∧ Plt.axes w1 = (nrows, ncols, index).
Proof.
  unfold Plt.subplot, Plt.modify. intros [= _ <-]. split; [|done].
  unfold draws. simpl. by rewrite app_nil_r.
Qed.

(** With a backend, a call of [display2dArray] that returns has drawn
    exactly one panel: the array, under the title and at the extent
    given, in the current subplot, with the range of [zscale]. *)
Lemma display2dArray_draws arr title showBars extent w r w1 :
  Plt.backend w = true →
  display2dArray arr title showBars extent w = (inr r, w1) →
  ∃ p, draws w w1 [p] ∧
       Plt.p_title p = title ∧ Plt.p_extent p = extent ∧ Plt.p_data p = arr ∧
       Plt.p_subplot p = Plt.axes w ∧ Plt.p_colorbar p = showBars ∧
       zscale arr (1 # 4) = Py.ok (Plt.p_vmin p, Plt.p_vmax p).
Proof.
  intros Hb. unfold display2dArray.
  rewrite (bind_run _ _ _ _ _ (importMatplotlib_present w Hb)). simpl.
  unfold Plt.bind, Plt.lift.
  destruct (zscale arr (1 # 4)) as [e|[z1 z2]]; [done|].
  unfold Plt.imshow, Plt.bind, Plt.gcf, Plt.ret.
  destruct (Plt.figures w) eqn:Hfig; intros [= <- <-];
    (eexists; split; [by repeat split|by repeat split]).
Qed.

(** With a backend and ten real samples, [display2dArray] returns. *)
Lemma display2dArray_returns arr title showBars extent w :
  Plt.backend w = true →
  10 ≤ length (finite_samples arr) →
  ∃ r w1, display2dArray arr title showBars extent w = (inr r, w1).
Proof.
  intros Hb Hlen. unfold display2dArray.
  rewrite (bind_run _ _ _ _ _ (importMatplotlib_present w Hb)). simpl.
  destruct (zscale_ok arr (1 # 4) Hlen) as (z1 & z2 & Hz).
  unfold Plt.bind, Plt.lift. rewrite Hz.
  unfold Plt.imshow, Plt.bind, Plt.gcf, Plt.ret, Py.ok.
  destruct (Plt.figures w); by eexists _, _.
Qed.

End world_facts.

(** ** The exact model of the floating-point interface *)

Section ieee_model.

Local Open Scope Q_scope.

Lemma Qle_bool_false p q : Qle_bool p q = false ↔ q < p.
Proof.
  rewrite <- not_true_iff_false, Qle_bool_iff. split; [apply Qnot_le_lt|apply Qlt_not_le].
Qed.

Lemma Qdiv_nonneg p q : 0 <= p → 0 < q → 0 <= p / q.
Proof. intros Hp Hq. apply Qle_shift_div_l; [done|]. by rewrite Qmult_0_l. Qed.

Lemma Qdiv_antitone p q1 q2 : 0 <= p → 0 < q1 → q1 <= q2 → p / q2 <= p / q1.
Proof.
  intros Hp Hq1 Hq12.
  assert (0 < q2) as Hq2 by (eapply Qlt_le_trans; done).
  apply Qle_shift_div_l; [done|]. unfold Qdiv. rewrite <- Qmult_assoc.
  rewrite <- (Qmult_1_r p) at 2. rewrite !(Qmult_comm p).
  apply Qmult_le_compat_r; [|done].
  rewrite Qmult_comm. apply Qle_shift_div_r; [done|]. by rewrite Qmult_1_l.
Qed.

Ltac xcases :=
  repeat match goal with
    | a : Ieee.xfloat |- _ => destruct a
    end;
  unfold Ieee.lt_prop in *; simpl in *; try done;
  repeat match goal with
    | H : _ ∧ _ |- _ => destruct H
    end; try done.

Ltac qsigns :=
  repeat match goal with
    | |- context [(?q ?= 0)%Q] => destruct (Qcompare_spec q 0)
    | H : context [(?q ?= 0)%Q] |- _ => destruct (Qcompare_spec q 0)
    end; simpl in *; try done;
  rewrite ?Qle_bool_iff, ?Qle_bool_false in *.

Ltac xsolve :=
  intros; xcases; qsigns;
  change (inject_Z 0) with 0 in *; change (inject_Z 1) with 1 in *;
  repeat match goal with
    | H : (_ < _)%Z |- _ => rewrite Zlt_Qlt in H
    end;
  change (inject_Z 0) with 0 in *;
  try lra; try nra;
  try (unfold Qdiv; change (/ 1) with 1; rewrite ?Qmult_1_r; lra).

Lemma exact_laws : Ieee.Laws Ieee.exact.
Proof.
  split; simpl.
  - intros a b c. xcases. rewrite !Qle_bool_iff. apply Qle_trans.
  - xsolve. apply Qdiv_nonneg; lra.
  - xsolve. apply Qdiv_antitone; lra.
  - xsolve.
  - xsolve.
  - xsolve.
  - xsolve.
  - xsolve. 
  - xsolve.
  - xsolve.
  - xsolve.
  - xsolve.
Qed.

End ieee_model.

(** ** The contrast estimator over floating-point arithmetic *)

Section ieee_zscale.

Context {A : Ieee.Arith} {L : Ieee.Laws A}.

(** With at least one element chopped at each end, the slice
    [samples[k:-k]] drops [k] elements at each end. *)
Lemma slice_chop {B} (l : list B) :
  10 ≤ length l →
  Py.slice l (Z.of_nat (length l / 10)) (- Z.of_nat (length l / 10))
  = drop (length l / 10) (take (length l - length l / 10) l).
Proof.
  intros Hlen. unfold Py.slice, Py.slice_bound.
  pose proof (Nat.Div0.mul_div_le (length l) 10) as Hk.
  assert (1 ≤ length l / 10) as Hk1.
  { change 1%nat with (10 / 10)%nat. by apply Nat.Div0.div_le_mono. }
  set (k := length l / 10) in *.
  destruct (Z.ltb_spec (Z.of_nat k) 0); [lia|].
  destruct (Z.ltb_spec (- Z.of_nat k) 0); [|lia].
  rewrite take_drop_commute. f_equal; [|f_equal]; lia.
Qed.

(** The trimmed subset of ten samples or more: eight or more of them. *)
Lemma ieee_subset_long input_img :
  10 ≤ length (Ieee.drop_nan (concat input_img)) →
  8 ≤ length (Ieee.zscale_subset input_img) ∧
  Ieee.zscale_subset input_img ⊆ Ieee.drop_nan (concat input_img).
Proof.
  intros Hlen. unfold Ieee.zscale_subset. cbv zeta.
  pose proof (merge_sort_Permutation Ieee.le_prop (Ieee.drop_nan (concat input_img)))
    as Hperm.
  set (samples := merge_sort Ieee.le_prop _) in *.
  assert (length samples = length (Ieee.drop_nan (concat input_img))) as Hsame
    by (by rewrite Hperm).
  rewrite slice_chop by lia. split.
  - rewrite length_drop, length_take.
    pose proof (Nat.Div0.mul_div_le (length samples) 10). lia.
  - intros v Hv. rewrite <- Hperm.
    eapply subseteq_take, subseteq_drop, Hv.
Qed.

(** What [zscale] returns once the fit has returned. *)
Lemma ieee_zscale_value input_img contrast slope intercept :
  let subset := Ieee.zscale_subset input_img in
  let mid := length subset / 2 in
  10 ≤ length (Ieee.drop_nan (concat input_img)) →
  Ieee.polyfit (Ieee.arange_minus (length subset) mid) subset = Py.ok (slope, intercept) →
  ∃ center,
    subset !! mid = Some center ∧
    center ∈ Ieee.drop_nan (concat input_img) ∧
    (1 - Z.of_nat mid < 0)%Z ∧ (0 < Z.of_nat (length subset) - Z.of_nat mid)%Z ∧
    Ieee.zscale input_img contrast
    = Py.ok (Ieee.add center
               (Ieee.div (Ieee.mul (Ieee.div slope contrast)
                            (Ieee.of_int (1 - Z.of_nat mid))) (Ieee.of_int 1)),
             Ieee.add center
               (Ieee.div (Ieee.mul (Ieee.div slope contrast)
                            (Ieee.of_int (Z.of_nat (length subset) - Z.of_nat mid)))
                  (Ieee.of_int 1))).
Proof.
  intros subset mid Hlen Hfit.
  destruct (ieee_subset_long input_img Hlen) as [Hsub Hin]. fold subset in Hsub, Hin.
  assert (4 ≤ mid) as Hmid4.
  { unfold mid. change 4 with (8 / 2). by apply Nat.Div0.div_le_mono. }
  assert (mid < length subset) as Hmid.
  { unfold mid. apply Nat.Div0.div_lt_upper_bound. lia. }
  destruct (lookup_lt_is_Some_2 subset mid Hmid) as [center Hcenter].
  exists center. split; [done|]. split.
  { apply Hin. by eapply list_elem_of_lookup_2. }
  split; [lia|]. split; [lia|].
  unfold Ieee.zscale. cbv zeta. fold (Ieee.zscale_subset input_img). fold subset. fold mid.
  unfold Py.getitem. rewrite Hcenter. unfold Py.bind, Py.ok. by rewrite Hfit.
Qed.

(** A finite value, moved by a non-negative slope over a positive
    contrast: down across a negative number of steps, up across a positive
    one. *)
Lemma ieee_bounds center slope contrast :
  Ieee.isfinite center = true →
  Ieee.le (Ieee.of_int 0) slope = true →
  Ieee.lt_prop (Ieee.of_int 0) contrast →
  Ieee.isfinite contrast = true →
  (∀ k, (k < 0)%Z →
     Ieee.le (Ieee.add center (Ieee.div (Ieee.mul (Ieee.div slope contrast) (Ieee.of_int k))
                                 (Ieee.of_int 1))) center = true) ∧
  (∀ k, (0 < k)%Z →
     Ieee.le center (Ieee.add center (Ieee.div (Ieee.mul (Ieee.div slope contrast)
                                                  (Ieee.of_int k)) (Ieee.of_int 1))) = true).
Proof.
  intros Hfin Hslope Hpos Hc.
  pose proof (Ieee.div_nonneg slope contrast Hslope Hpos Hc) as Ht.
  split; intros k Hk.
  - by apply Ieee.add_nonpos, Ieee.div_one_l, Ieee.mul_int_nonpos.
  - by apply Ieee.add_nonneg, Ieee.div_one_r, Ieee.mul_int_nonneg.
Qed.

(** The sample that is not not-a-number is finite. *)
Lemma ieee_center_finite input_img center :
  Forall (λ v, Ieee.isnan v = false → Ieee.isfinite v = true) (concat input_img) →
  center ∈ Ieee.drop_nan (concat input_img) →
  Ieee.isfinite center = true.
Proof.
  intros Hall [Hnan Hin]%list_elem_of_filter.
  rewrite Forall_forall in Hall. by apply Hall.
Qed.

End ieee_zscale.

(** ** Claims on the contrast estimator *)





(** C2 (as stated, refuted).  On the ramp 0..9 the code returns the range
    (-7, 21), while the steps as worded, with the lower bound one unit
    below the first index, give (-15, 21). *)
Lemma zscale_spec_differs :
  zscale [ramp 0 5; ramp 5 5] (1 # 4) = Py.ok ((-2352 # 336)%Q, (7056 # 336)%Q) ∧
  zscale_spec [ramp 0 5; ramp 5 5] (1 # 4) = Py.ok ((-5040 # 336)%Q, (7056 # 336)%Q) ∧
  ¬ same_range (zscale [ramp 0 5; ramp 5 5] (1 # 4)) (zscale_spec [ramp 0 5; ramp 5 5] (1 # 4)).
Proof.
  split; [by vm_compute|]. split; [by vm_compute|].
  vm_compute. intros [H _]. discriminate H.
Qed.

(** C2 (amended).  When at least ten real samples remain, [zscale]
    flattens, drops NaN, sorts, discards a tenth of the samples at each
    end, takes the middle element of the trimmed subset as the centre
    value, fits a line to the trimmed values against (index - centre
    index), and returns centre + slope / contrast * (1 - centre index) and
    centre + slope / contrast * (trimmed length - centre index). *)
Theorem zscale_steps input_img contrast :
  let subset := trim (Np.sort (Np.drop_nan (Np.flatten input_img))) in
  let mid := length subset / 2 in
  10 ≤ length (Np.drop_nan (Np.flatten input_img)) →
  ∃ center slope intercept,
    subset !! mid = Some center ∧
    Np.polyfit1 (Np.arange_minus (length subset) mid) subset = Py.ok (slope, intercept) ∧
    zscale input_img contrast =
      Py.ok ((center + slope / contrast * (1 - Np.Qnat mid) / 1)%Q,
             (center + slope / contrast * (Np.Qnat (length subset) - Np.Qnat mid) / 1)%Q).
Proof.
  intros subset mid Hlen.
  pose proof (zscale_subset_trim input_img Hlen) as Hsub. fold subset in Hsub.
  pose proof (zscale_subset_long input_img Hlen) as Hm. rewrite Hsub in Hm.
  destruct (zscale_value input_img contrast) as (center & Hcenter & Hz).
  { rewrite Hsub. intros Hnil. rewrite Hnil in Hm. simpl in Hm. lia. }
  rewrite Hsub in Hcenter, Hz. fold mid in Hcenter, Hz.
  eexists center, _, _. split; [done|]. split; [|exact Hz].
  apply polyfit1_ok; rewrite arange_minus_length; [done|lia].
Qed.

Lemma zscale_steps_witness :
  ∃ center slope intercept,
    trim (Np.sort (Np.drop_nan (Np.flatten [ramp 0 5; ramp 5 5]))) !! 4 = Some center ∧
    Np.polyfit1 (Np.arange_minus 8 4)
      (trim (Np.sort (Np.drop_nan (Np.flatten [ramp 0 5; ramp 5 5])))) =
      Py.ok (slope, intercept) ∧
    zscale [ramp 0 5; ramp 5 5] (1 # 4) =
      Py.ok ((center + slope / (1 # 4) * (1 - Np.Qnat 4) / 1)%Q,
             (center + slope / (1 # 4) * (Np.Qnat 8 - Np.Qnat 4) / 1)%Q).
Proof. apply (zscale_steps [ramp 0 5; ramp 5 5] (1 # 4)). vm_compute. lia. Defined.

(** C3.  Inserting NaN values at arbitrary positions of the input does not
    change what [zscale] returns, be it a range or a failure. *)
Theorem zscale_nan_insensitive input_img input_img' contrast :
  nan_inserted (Np.flatten input_img) (Np.flatten input_img') →
  zscale input_img' contrast = zscale input_img contrast.
Proof.
  intros Hins. apply zscale_finite_samples.
  unfold finite_samples. by apply nan_inserted_drop_nan.
Qed.

Lemma zscale_nan_insensitive_witness :
  zscale [Np.NaN :: ramp 0 5; ramp 5 5 ++ [Np.NaN]] (1 # 4) =
  zscale [ramp 0 5; ramp 5 5] (1 # 4).
Proof.
  apply zscale_nan_insensitive. vm_compute. repeat constructor.
Defined.

(** C4 (as stated, refuted).  On an input made of NaN only the trimmed
    subset is empty and [zscale] fails, with an [IndexError] and not with an
    [InvalidInput] error. *)
Lemma zscale_all_nan_not_InvalidInput :
  length (zscale_subset [[Np.NaN; Np.NaN]; [Np.NaN; Np.NaN]]) < 2 ∧
  zscale [[Np.NaN; Np.NaN]; [Np.NaN; Np.NaN]] (1 # 4) = Py.raise Py.IndexError ∧
  zscale [[Np.NaN; Np.NaN]; [Np.NaN; Np.NaN]] (1 # 4) ≠ Py.raise Py.InvalidInput.
Proof. split; [vm_compute; lia|]. split; [by vm_compute|]. by vm_compute. Qed.

(** C4 (amended).  Whenever the trimmed subset has fewer than two elements
    it is empty, and [zscale] fails with an [IndexError] instead of
    returning a range; [display2dArray] does not recover from it: with a
    backend it raises the same error and draws nothing. *)
Theorem zscale_degenerate_IndexError input_img contrast title showBars extent w :
  length (zscale_subset input_img) < 2 →
  zscale_subset input_img = [] ∧
  zscale input_img contrast = Py.raise Py.IndexError ∧
  (Plt.backend w = true →
   display2dArray input_img title showBars extent w = (Py.raise Py.IndexError, w)).
Proof.
  intros Hlen.
  assert (zscale_subset input_img = []) as Hnil.
  { destruct (zscale_subset_length input_img); [done|lia]. }
  split; [done|]. split; [by apply zscale_empty|].
  intros Hb. apply display2dArray_raise; [done|]. by apply zscale_empty.
Qed.

Lemma zscale_degenerate_IndexError_witness :
  zscale_subset [[Np.NaN; Np.NaN; Np.NaN]] = [] ∧
  zscale [[Np.NaN; Np.NaN; Np.NaN]] (1 # 4) = Py.raise Py.IndexError ∧
  (Plt.backend sample_world = true →
   display2dArray [[Np.NaN; Np.NaN; Np.NaN]] "Data" true None sample_world
   = (Py.raise Py.IndexError, sample_world)).
Proof. apply zscale_degenerate_IndexError. vm_compute. lia. Defined.

(** ** Pixels of images and footprints *)

Section pixels.

Lemma inside_bounds b x y :
  Afw.inside b x y = true ↔
  (Afw.getBeginX b ≤ x < Afw.getEndX b ∧ Afw.getBeginY b ≤ y < Afw.getEndY b)%Z.
Proof. unfold Afw.inside. rewrite !andb_true_iff. lia. Qed.

(** A freshly filled image holds the fill value on its box. *)
Lemma pixel_fill b v x y :
  Afw.pixel (Afw.ImageF_fill b v) x y = if Afw.inside b x y then Some v else None.
Proof.
  unfold Afw.pixel. simpl. destruct (Afw.inside b x y) eqn:Hin; [|done].
  apply inside_bounds in Hin. unfold Afw.getWidth, Afw.getHeight.
  rewrite lookup_replicate_2 by lia. simpl. apply lookup_replicate_2. lia.
Qed.

(** Writing a pixel changes that pixel and no other. *)
Lemma set_pixel_spec im x y v im' :
  Afw.set_pixel im x y v = inr im' →
  Afw.getBBox im' = Afw.getBBox im ∧
  ∀ x' y', Afw.pixel im' x' y' =
           if decide ((x', y') = (x, y)) then Some v else Afw.pixel im x' y'.
Proof.
  unfold Afw.set_pixel. destruct (Afw.pixel im x y) as [v0|] eqn:Hp; [|done].
  intros [= <-]. split; [done|]. intros x' y'.
  unfold Afw.pixel in *. simpl.
  destruct (Afw.inside (Afw.getBBox im) x y) eqn:Hin; [|done].
  destruct (Afw.getArray im !! Z.to_nat (y - Afw.getBeginY (Afw.getBBox im)))
    as [row|] eqn:Hrow; [|done].
  simpl in Hp. apply inside_bounds in Hin.
  case_decide as Heq.
  - injection Heq as -> ->. rewrite (proj2 (inside_bounds _ _ _) Hin).
    rewrite list_lookup_alter_eq, Hrow. simpl.
    apply list_lookup_insert_eq. by eapply lookup_lt_Some.
  - destruct (Afw.inside (Afw.getBBox im) x' y') eqn:Hin'; [|done].
    apply inside_bounds in Hin'.
    destruct (decide (y' = y)) as [->|Hy].
    + rewrite list_lookup_alter_eq, Hrow. simpl.
      apply list_lookup_insert_ne. intros Hx. apply Heq. f_equal. lia.
    + rewrite list_lookup_alter_ne; [done|lia].
Qed.

(** What is read out of an image is the value of each pixel, in order. *)
Lemma flattenArray_spec pixels im vs :
  Afw.flattenArray pixels im = inr vs →
  Forall2 (λ p v, Afw.pixel im p.1 p.2 = Some v) pixels vs.
Proof.
  revert vs. induction pixels as [|[x y] pixels IH]; intros vs; simpl.
  - intros [= <-]. constructor.
  - destruct (Afw.pixel im x y) as [v|] eqn:Hp; [|done].
    destruct (Afw.flattenArray pixels im) as [e|vs']; [done|].
    simpl. intros [= <-]. constructor; [done|]. by apply IH.
Qed.

(** Writing back the values of a region changes the pixels of the region
    and no other. *)
Lemma expandArray_spec (f : Z → Z → option Np.float) pixels vs dest dest' :
  Forall2 (λ p v, f p.1 p.2 = Some v) pixels vs →
  Afw.expandArray pixels vs dest = inr dest' →
  Afw.getBBox dest' = Afw.getBBox dest ∧
  ∀ x y, Afw.pixel dest' x y =
         if decide ((x, y) ∈ pixels) then f x y else Afw.pixel dest x y.
Proof.
  intros Hvs. revert dest.
  induction Hvs as [|[x0 y0] v pixels vs Hv _ IH]; intros dest; simpl.
  - by intros [= <-].
  - destruct (Afw.set_pixel dest x0 y0 v) as [e|d1] eqn:Hset; [done|]. simpl.
    intros Hrest. apply set_pixel_spec in Hset as [Hb1 Hp1].
    apply IH in Hrest as [Hb Hp]. split; [congruence|].
    intros x y. rewrite Hp, Hp1. simpl in Hv.
    destruct (decide ((x, y) ∈ pixels)) as [Hin|Hnin].
    + rewrite decide_True; [done|]. apply elem_of_cons. by right.
    + destruct (decide ((x, y) = (x0, y0))) as [[= -> ->]|Hne].
      * rewrite decide_True; [done|]. apply elem_of_cons. by left.
      * rewrite decide_False; [done|]. rewrite elem_of_cons. tauto.
Qed.

Lemma Forall2_elem_of_l {A B} (R : A → B → Prop) l k x :
  Forall2 R l k → x ∈ l → ∃ y, R x y.
Proof.
  induction 1 as [|a b l k Hab _ IH]; [by intros ?%elem_of_nil|].
  intros [->|Hin]%elem_of_cons; eauto.
Qed.

(** The heavy cutout is not-a-number off the footprint and the image
    plane of the exposure on it. *)
Lemma heavy_cutout_masked fp exposure sub :
  cutout true fp exposure = inr sub →
  Afw.getBBox sub = Afw.fp_bbox fp ∧ masked_by_footprint fp exposure (Afw.getArray sub).
Proof.
  unfold cutout. simpl. unfold Afw.HeavyFootprintF.
  destruct (Afw.flattenArray _ _) as [e|vs] eqn:Hflat; [done|]. simpl.
  apply flattenArray_spec in Hflat.
  unfold getHeavyFootprintSubimage, Afw.HeavyFootprintF_cast, Afw.isHeavy. simpl.
  intros Hexp.
  apply (expandArray_spec
           (λ x y, Afw.pixel (Afw.getImage (Afw.getMaskedImage exposure)) x y))
    in Hexp as [Hb Hp]; [|done].
  simpl in Hb. split; [done|]. intros x y Hin.
  rewrite <- Hb. destruct sub as [b data]. simpl. rewrite Hp, pixel_fill, Hin.
  case_decide as Hmem; [|done].
  destruct (Forall2_elem_of_l _ _ _ _ Hflat Hmem) as [v Hv]. simpl in Hv.
  exists v. by rewrite Hv.
Qed.

End pixels.

(** ** Cutouts *)

Section cutouts.

(** One secondary panel: the extraction, the choice of the subplot and
    the drawing. *)
Lemma secondary_panel_inv asHeavyFootprint fp exposure index title extent w r w1 :
  Plt.backend w = true →
  (let! subexp := Plt.lift (cutout asHeavyFootprint fp exposure) in
   let! _ := Plt.subplot 1 3 index in
   display2dArray (Afw.getArray subexp) title true extent) w = (inr r, w1) →
  ∃ p sub, draws w w1 [p] ∧
    cutout asHeavyFootprint fp exposure = inr sub ∧
    Plt.p_data p = Afw.getArray sub ∧ Plt.p_title p = title ∧ Plt.p_extent p = extent.
Proof.
  intros Hb Hrun.
  apply bind_inr in Hrun as (sub & w2 & [Hsub ->]%lift_inr & Hrun).
  apply bind_inr in Hrun as (u & w3 & [Hd3 _]%subplot_draws & Hrun).
  apply display2dArray_draws in Hrun as (p & Hd & Ht & He & Hdata & _);
    [|by rewrite (proj1 Hd3)].
  exists p, sub. split; [|done].
  by apply (draws_trans w w3 w1 [] [p]).
Qed.

(** What a call of [displayCutouts] that returns has drawn: one panel per
    exposure, the primary one first, each holding the cutout of its
    exposure at the extent of the footprint. *)
Lemma displayCutouts_inv source exposure posImage negImage asHeavyFootprint
    title figsize w r w1 :
  let fp := Afw.getFootprint source in
  Plt.backend w = true →
  displayCutouts source exposure posImage negImage asHeavyFootprint title figsize w
    = (inr r, w1) →
  r = Some (length (Plt.figures w)) ∧
  ∃ new, draws w w1 new ∧
    Forall2 (λ p e, ∃ sub, cutout asHeavyFootprint fp e = inr sub ∧
                           Plt.p_data p = Afw.getArray sub ∧
                           Plt.p_extent p = Some (bbox_extent (Afw.fp_bbox fp)))
      new (exposure :: supplied posImage negImage) ∧
    Plt.p_title <$> new =
      (title +:+ " Diffim") :: secondary_titles title posImage negImage.
Proof.
  intros fp Hb. unfold displayCutouts.
  rewrite (bind_run _ _ _ _ _ (importMatplotlib_present w Hb)). simpl. fold fp.
  intros Hrun.
  apply bind_inr in Hrun as (fig & w2 & [-> Hd2]%figure_draws & Hrun).
  apply bind_inr in Hrun as (sub & w3 & [Hsub ->]%lift_inr & Hrun).
  apply bind_inr in Hrun as (u & w4 & [Hd4 _]%subplot_draws & Hrun).
  apply bind_inr in Hrun as (h & w5 & Hdraw & Hrun).
  apply display2dArray_draws in Hdraw as (p & Hd5 & Ht & He & Hdata & _);
    [|by rewrite (proj1 Hd4), (proj1 Hd2)].
  pose proof (draws_trans _ _ _ _ _ (draws_trans _ _ _ _ _ Hd2 Hd4) Hd5) as Hd.
  simpl in Hd. clear Hd2 Hd4 Hd5.
  assert (Plt.backend w5 = true) as Hb5 by (by rewrite (proj1 Hd)).
  apply bind_inr in Hrun as (hp & w6 & Hpos & Hrun).
  assert (∃ newp, draws w5 w6 newp ∧
            Forall2 (λ p e, ∃ sub, cutout asHeavyFootprint fp e = inr sub ∧
                                   Plt.p_data p = Afw.getArray sub ∧
                                   Plt.p_extent p = Some (bbox_extent (Afw.fp_bbox fp)))
              newp (option_list posImage) ∧
            Plt.p_title <$> newp =
              match posImage with Some _ => [title +:+ " Pos"] | None => [] end)
    as (newp & Hdp & Hfp & Htp).
  { destruct posImage as [pos|]; simpl.
    - apply (secondary_panel_inv asHeavyFootprint fp pos) in Hpos
        as (pp & subp & ? & ? & ? & Htitle & ?); [|done].
      exists [pp]. split; [done|]. split; [|simpl; by rewrite Htitle].
      repeat constructor. by exists subp.
    - apply ret_inr in Hpos as [_ ->]. exists []. split; [apply draws_refl|].
      by split; [constructor|]. }
  assert (Plt.backend w6 = true) as Hb6 by (by rewrite (proj1 Hdp)).
  apply bind_inr in Hrun as (hn & w7 & Hneg & Hrun).
  assert (∃ newn, draws w6 w7 newn ∧
            Forall2 (λ p e, ∃ sub, cutout asHeavyFootprint fp e = inr sub ∧
                                   Plt.p_data p = Afw.getArray sub ∧
                                   Plt.p_extent p = Some (bbox_extent (Afw.fp_bbox fp)))
              newn (option_list negImage) ∧
            Plt.p_title <$> newn =
              match negImage with Some _ => [title +:+ " Neg"] | None => [] end)
    as (newn & Hdn & Hfn & Htn).
  { destruct negImage as [neg|]; simpl.
    - apply (secondary_panel_inv asHeavyFootprint fp neg) in Hneg
        as (pn & subn & ? & ? & ? & Htitle & ?); [|done].
      exists [pn]. split; [done|]. split; [|simpl; by rewrite Htitle].
      repeat constructor. by exists subn.
    - apply ret_inr in Hneg as [_ ->]. exists []. split; [apply draws_refl|].
      by split; [constructor|]. }
  apply ret_inr in Hrun as [-> ->]. split; [done|].
  exists ([p] ++ newp ++ newn). split.
  { eapply draws_trans; [done|]. by eapply draws_trans. }
  split.
  - simpl. constructor; [by exists sub|]. unfold supplied. by apply Forall2_app.
  - simpl. rewrite fmap_app, Ht, Htp, Htn. done.
Qed.

Lemma secondary_panel_returns asHeavyFootprint fp exposure index title extent w sub :
  Plt.backend w = true →
  cutout asHeavyFootprint fp exposure = inr sub →
  10 ≤ length (finite_samples (Afw.getArray sub)) →
  ∃ r w1,
    (let! subexp := Plt.lift (cutout asHeavyFootprint fp exposure) in
     let! _ := Plt.subplot 1 3 index in
     display2dArray (Afw.getArray subexp) title true extent) w = (inr r, w1).
Proof.
  intros Hb Hsub Hlen. unfold Plt.bind at 1, Plt.lift. rewrite Hsub.
  unfold Plt.bind, Plt.subplot, Plt.modify.
  by apply display2dArray_returns.
Qed.

(** [displayCutouts] returns when each cutout can be extracted and holds
    ten real pixels. *)
Lemma displayCutouts_returns source exposure posImage negImage asHeavyFootprint
    title figsize w :
  Plt.backend w = true →
  Forall (λ e, ∃ sub, cutout asHeavyFootprint (Afw.getFootprint source) e = inr sub ∧
                      10 ≤ length (finite_samples (Afw.getArray sub)))
    (exposure :: supplied posImage negImage) →
  ∃ r w1,
    displayCutouts source exposure posImage negImage asHeavyFootprint title figsize w
      = (inr r, w1).
Proof.
  intros Hb Hall. apply Forall_cons in Hall as [(sub & Hsub & Hlen) Hall].
  unfold supplied in Hall. apply Forall_app in Hall as [Hpos Hneg].
  unfold displayCutouts.
  rewrite (bind_run _ _ _ _ _ (importMatplotlib_present w Hb)). simpl.
  unfold Plt.bind at 1, Plt.figure.
  unfold Plt.bind at 1, Plt.lift at 1. unfold cutout in Hsub. rewrite Hsub.
  unfold Plt.bind at 1, Plt.subplot at 1, Plt.modify at 1.
  unfold Plt.bind at 1.
  match goal with
  | |- context [display2dArray ?a ?t ?b ?e ?w0] =>
      destruct (display2dArray_returns a t b e w0 Hb Hlen) as (h & w5 & Hdraw)
  end.
  rewrite Hdraw.
  pose proof Hdraw as Hdraw'.
  apply display2dArray_draws in Hdraw' as (p5 & Hd5 & _); [|done].
  assert (Plt.backend w5 = true) as Hb5 by (by rewrite (proj1 Hd5)).
  unfold Plt.bind at 1.
  assert (∃ hp w6,
            match posImage with
            | Some posImage =>
                let! subexp := Plt.lift (cutout asHeavyFootprint (Afw.getFootprint source)
                                           posImage) in
                let! _ := Plt.subplot 1 3 2 in
                display2dArray (Afw.getArray subexp) (title +:+ " Pos") true
                  (Some (bbox_extent (Afw.fp_bbox (Afw.getFootprint source))))
            | None => Plt.ret None
            end w5 = (inr hp, w6) ∧ Plt.backend w6 = true) as (hp & w6 & Hp & Hb6).
  { destruct posImage as [pos|]; [|by eexists _, _].
    apply Forall_cons in Hpos as [(subp & Hsubp & Hlenp) _].
    destruct (secondary_panel_returns asHeavyFootprint (Afw.getFootprint source) pos 2
                (title +:+ " Pos")
                (Some (bbox_extent (Afw.fp_bbox (Afw.getFootprint source))))
                w5 subp Hb5 Hsubp Hlenp) as (hp & w6 & Hp).
    exists hp, w6. split; [done|].
    apply secondary_panel_inv in Hp as (? & ? & Hd & _); [|done].
    by rewrite (proj1 Hd). }
  unfold cutout in Hp. rewrite Hp.
  unfold Plt.bind at 1.
  assert (∃ hn w7,
            match negImage with
            | Some negImage =>
                let! subexp := Plt.lift (cutout asHeavyFootprint (Afw.getFootprint source)
                                           negImage) in
                let! _ := Plt.subplot 1 3 3 in
                display2dArray (Afw.getArray subexp) (title +:+ " Neg") true
                  (Some (bbox_extent (Afw.fp_bbox (Afw.getFootprint source))))
            | None => Plt.ret None
            end w6 = (inr hn, w7)) as (hn & w7 & Hn).
  { destruct negImage as [neg|]; [|by eexists _, _].
    apply Forall_cons in Hneg as [(subn & Hsubn & Hlenn) _].
    by apply (secondary_panel_returns asHeavyFootprint (Afw.getFootprint source) neg 3
                (title +:+ " Neg")
                (Some (bbox_extent (Afw.fp_bbox (Afw.getFootprint source))))
                w6 subn Hb6 Hsubn Hlenn). }
  unfold cutout in Hn. rewrite Hn. by eexists _, _.
Qed.

End cutouts.

(** ** Claims on the cutouts *)

(** C5.  When [displayCutouts] runs in heavy-footprint mode, each cutout it
    draws, the primary one and every supplied secondary one, is NaN at the
    pixels of the bounding box that are outside the pixel set of the
    footprint, and holds the value of the data plane of its exposure at the
    pixels inside it. *)
Theorem displayCutouts_heavy_masked source exposure posImage negImage title figsize w r w1 :
  Plt.backend w = true →
  displayCutouts source exposure posImage negImage true title figsize w = (inr r, w1) →
  ∃ new, Plt.panels w1 = Plt.panels w ++ new ∧
    Forall2 (λ p e, masked_by_footprint (Afw.getFootprint source) e (Plt.p_data p))
      new (exposure :: supplied posImage negImage).
Proof.
  intros Hb Hrun.
  apply displayCutouts_inv in Hrun as (_ & new & Hd & Hcut & _); [|done].
  exists new. split; [apply Hd|].
  eapply Forall2_impl; [exact Hcut|]. simpl.
  intros p e (sub & Hsub & -> & _). by apply heavy_cutout_masked in Hsub as [_ ?].
Qed.

Lemma displayCutouts_heavy_masked_witness :
  ∃ new,
    Plt.panels
      (displayCutouts sample_source sample_exposure (Some sample_exposure) None true
         "src" (8, 5 # 2)%Q sample_world).2 = Plt.panels sample_world ++ new ∧
    Forall2 (λ p e, masked_by_footprint (Afw.getFootprint sample_source) e (Plt.p_data p))
      new (sample_exposure :: supplied (Some sample_exposure) None).
Proof.
  apply (displayCutouts_heavy_masked sample_source sample_exposure (Some sample_exposure)
           None "src" (8, 5 # 2)%Q sample_world (Some 0)).
  - reflexivity.
  - vm_compute. reflexivity.
Defined.

(** ** The heavy-upgrade helper *)

Section heavy_catalog.

Lemma HeavyFootprintF_heavy fp mi hfp :
  Afw.HeavyFootprintF fp mi = inr hfp → Afw.isHeavy hfp = true.
Proof.
  unfold Afw.HeavyFootprintF. destruct (Afw.flattenArray _ _); [done|].
  simpl. by intros [= <-].
Qed.

Lemma upgraded_heavy exposure s s' :
  upgraded exposure s s' → Afw.isHeavy (Afw.getFootprint s') = true.
Proof.
  unfold upgraded. destruct (Afw.isHeavy (Afw.getFootprint s)) eqn:Hs.
  - by intros ->.
  - intros (hfp & Hhfp & ->). simpl. by eapply HeavyFootprintF_heavy.
Qed.

(** The catalog after [source.setFootprint(hfp)] on the record that
    follows [pre]. *)
Lemma set_record_footprint_records catalog pre s rest hfp w :
  records_of catalog w = pre ++ s :: rest →
  records_of catalog (set_record_footprint catalog (length pre) hfp w).2
  = pre ++ Afw.setFootprint s hfp :: rest.
Proof.
  unfold records_of, set_record_footprint, Plt.modify. simpl. intros Hrec.
  rewrite lookup_total_alter_eq. rewrite lookup_total_alt in Hrec.
  destruct (Plt.catalogs w !! catalog) as [l|]; simpl in *.
  - subst l. rewrite <- (Nat.add_0_r (length pre)). by rewrite alter_app_r.
  - by destruct pre.
Qed.

(** The loop upgrades the records it is given, one by one, and leaves
    the records before them as they are. *)
Lemma makeHeavyCatalog_loop_upgrades catalog exposure verbose records :
  ∀ pre w,
    records_of catalog w = pre ++ records →
    (∀ s, s ∈ records → Afw.isHeavy (Afw.getFootprint s) = false →
          ∃ hfp, Afw.HeavyFootprintF (Afw.getFootprint s) (Afw.getMaskedImage exposure)
                 = inr hfp) →
    ∃ w1 records',
      makeHeavyCatalog_loop catalog exposure verbose (length pre) records w
        = (inr (), w1) ∧
      records_of catalog w1 = pre ++ records' ∧
      Forall2 (upgraded exposure) records records'.
Proof.
  induction records as [|s rest IH]; intros pre w Hrec Hbuild; simpl.
  - exists w, []. by repeat split.
  - unfold upgraded at 1.
    destruct (Afw.isHeavy (Afw.getFootprint s)) eqn:Hs; simpl.
    + destruct (IH (pre ++ [s]) w) as (w1 & rest' & Hrun & Hrec1 & Hup).
      { by rewrite <- (assoc_L (++)). }
      { intros s' Hs'. apply Hbuild. apply elem_of_cons. by right. }
      rewrite length_app, Nat.add_1_r in Hrun.
      exists w1, (s :: rest'). split; [by rewrite <- Hrun|].
      split; [by rewrite Hrec1, <- (assoc_L (++))|].
      constructor; [|done]. unfold upgraded. by rewrite Hs.
    + destruct (Hbuild s) as [hfp Hhfp]; [apply elem_of_cons; by left|done|].
      set (w0 := (if verbose
                  then Plt.print (pretty (length pre) +:+ " not heavy => heavy")
                  else Plt.ret ()) w).
      assert (∃ w', w0 = (inr (), w') ∧ records_of catalog w' = pre ++ s :: rest)
        as (w' & Hw0 & Hrec').
      { unfold w0. destruct verbose; eexists; (split; [reflexivity|done]). }
      pose proof (set_record_footprint_records catalog pre s rest hfp w' Hrec') as Hset.
      destruct (IH (pre ++ [Afw.setFootprint s hfp])
                  (set_record_footprint catalog (length pre) hfp w').2)
        as (w1 & rest' & Hrun & Hrec1 & Hup).
      { by rewrite Hset, <- (assoc_L (++)). }
      { intros s' Hs'. apply Hbuild. apply elem_of_cons. by right. }
      rewrite length_app, Nat.add_1_r in Hrun.
      exists w1, (Afw.setFootprint s hfp :: rest'). split.
      * unfold Plt.bind at 1. unfold Plt.bind at 1. unfold Plt.bind at 1.
        fold w0. rewrite Hw0. unfold Plt.lift. rewrite Hhfp.
        unfold set_record_footprint at 1, Plt.modify at 1.
        unfold set_record_footprint, Plt.modify in Hrun. simpl in Hrun. exact Hrun.
      * split; [by rewrite Hrec1, <- (assoc_L (++))|].
        constructor; [|done]. unfold upgraded. rewrite Hs. eauto.
Qed.

(** The loop finds nothing to do on heavy records. *)
Lemma makeHeavyCatalog_loop_noop catalog exposure verbose records :
  Forall (λ s, Afw.isHeavy (Afw.getFootprint s) = true) records →
  ∀ i w, makeHeavyCatalog_loop catalog exposure verbose i records w = (inr (), w).
Proof.
  induction 1 as [|s rest Hs _ IH]; intros i w; simpl; [done|].
  rewrite Hs. simpl. unfold Plt.bind at 1. simpl. apply IH.
Qed.

End heavy_catalog.

(** C6.  When a heavy footprint can be built for each light record,
    [makeHeavyCatalog] returns the reference it was given; in the world it
    leaves, each record of that catalog is the former record, kept if it was
    heavy and given the heavy footprint built on the exposure if not, so
    that every footprint is heavy; and a second run, whatever its verbosity,
    returns the same reference and leaves the world as it is: it replaces no
    footprint and prints nothing. *)
Theorem makeHeavyCatalog_idempotent catalog exposure verbose verbose' w :
  (∀ s, s ∈ records_of catalog w → Afw.isHeavy (Afw.getFootprint s) = false →
        ∃ hfp, Afw.HeavyFootprintF (Afw.getFootprint s) (Afw.getMaskedImage exposure)
               = inr hfp) →
  ∃ w1,
    makeHeavyCatalog catalog exposure verbose w = (inr catalog, w1) ∧
    Forall2 (upgraded exposure) (records_of catalog w) (records_of catalog w1) ∧
    Forall (λ s, Afw.isHeavy (Afw.getFootprint s) = true) (records_of catalog w1) ∧
    makeHeavyCatalog catalog exposure verbose' w1 = (inr catalog, w1).
Proof.
  intros Hbuild.
  destruct (makeHeavyCatalog_loop_upgrades catalog exposure verbose
              (records_of catalog w) [] w eq_refl Hbuild)
    as (w1 & records' & Hrun & Hrec & Hup).
  simpl in Hrun, Hrec. rewrite <- Hrec in Hup.
  assert (Forall (λ s, Afw.isHeavy (Afw.getFootprint s) = true) (records_of catalog w1))
    as Hheavy.
  { eapply Forall2_Forall_r; [exact Hup|].
    apply Forall_forall. intros s _ s'. apply upgraded_heavy. }
  exists w1. split; [|split; [done|split; [done|]]].
  - unfold makeHeavyCatalog, get_catalog, Plt.bind at 1. fold (records_of catalog w).
    unfold Plt.bind. by rewrite Hrun.
  - unfold makeHeavyCatalog, get_catalog, Plt.bind at 1. fold (records_of catalog w1).
    unfold Plt.bind. by rewrite makeHeavyCatalog_loop_noop.
Qed.

Lemma makeHeavyCatalog_idempotent_witness :
  ∃ w1,
    makeHeavyCatalog 0 sample_exposure true sample_world = (inr 0, w1) ∧
    Forall2 (upgraded sample_exposure) (records_of 0 sample_world) (records_of 0 w1) ∧
    Forall (λ s, Afw.isHeavy (Afw.getFootprint s) = true) (records_of 0 w1) ∧
    makeHeavyCatalog 0 sample_exposure true w1 = (inr 0, w1).
Proof.
  apply makeHeavyCatalog_idempotent.
  intros s Hs _. vm_compute in Hs.
  apply elem_of_cons in Hs as [->|Hs]; [by eexists; vm_compute|].
  apply elem_of_cons in Hs as [->|Hs]; [by eexists; vm_compute|].
  by apply elem_of_nil in Hs.
Defined.

(** ** The coordinate lookup *)

Section lookup.

Context `{Afw.Geom}.

(** One turn of the loop: the record is returned when its bounding box
    holds the point, the scan goes on when it does not, and what the
    integer test raises is raised. *)
Lemma searchCatalog_loop_cons x y i s rest w :
  searchCatalog_loop x y i (s :: rest) w =
    match point_in_bbox x y (Afw.fp_bbox (Afw.getFootprint s)) with
    | inr true => (inr (Some s), Plt.set_stdout (Plt.stdout w ++ [pretty i]) w)
    | inr false => searchCatalog_loop x y (S i) rest w
    | inl e => (inl e, w)
    end.
Proof.
  simpl. unfold point_in_bbox.
  destruct (Afw.contains_Point2D _ x y) as [e|[|]]; [|done|done].
  unfold Plt.bind at 1, Plt.lift.
  by destruct (let? xi := int_of_float x in _) as [e'|[|]].
Qed.

Lemma searchCatalog_loop_found x y records :
  ∀ i k s w,
    records !! k = Some s →
    point_in_bbox x y (Afw.fp_bbox (Afw.getFootprint s)) = inr true →
    (∀ j s', j < k → records !! j = Some s' →
             point_in_bbox x y (Afw.fp_bbox (Afw.getFootprint s')) = inr false) →
    searchCatalog_loop x y i records w =
      (inr (Some s), Plt.set_stdout (Plt.stdout w ++ [pretty (i + k)]) w).
Proof.
  induction records as [|s0 rest IH]; intros i k s w Hk Hs Hbefore; [done|].
  rewrite searchCatalog_loop_cons. destruct k as [|k]; simpl in Hk.
  - injection Hk as ->. rewrite Hs. by rewrite Nat.add_0_r.
  - rewrite (Hbefore 0 s0) by (done || lia).
    rewrite (IH (S i) k s w Hk Hs).
    + by rewrite Nat.add_succ_r.
    + intros j s' Hj Hs'. apply (Hbefore (S j) s'); [lia|done].
Qed.

Lemma searchCatalog_loop_absent x y records :
  ∀ i w,
    Forall (λ s, point_in_bbox x y (Afw.fp_bbox (Afw.getFootprint s)) = inr false)
      records →
    searchCatalog_loop x y i records w = (inr None, w).
Proof.
  induction records as [|s0 rest IH]; intros i w Hall; [done|].
  apply Forall_cons in Hall as [Hs0 Hrest].
  rewrite searchCatalog_loop_cons, Hs0. by apply IH.
Qed.

Lemma searchCatalog_loop_raise x y records :
  ∀ i k s e w,
    records !! k = Some s →
    point_in_bbox x y (Afw.fp_bbox (Afw.getFootprint s)) = inl e →
    (∀ j s', j < k → records !! j = Some s' →
             point_in_bbox x y (Afw.fp_bbox (Afw.getFootprint s')) = inr false) →
    searchCatalog_loop x y i records w = (inl e, w).
Proof.
  induction records as [|s0 rest IH]; intros i k s e w Hk Hs Hbefore; [done|].
  rewrite searchCatalog_loop_cons. destruct k as [|k]; simpl in Hk.
  - injection Hk as ->. by rewrite Hs.
  - rewrite (Hbefore 0 s0) by (done || lia).
    apply (IH (S i) k s e w Hk Hs).
    intros j s' Hj Hs'. apply (Hbefore (S j) s'); [lia|done].
Qed.

End lookup.

(** C7.  [searchCatalog] scans the records in insertion order.  Whether a
    bounding box holds the point is decided by the floating-point test and,
    when that test raises, by the integer test ([point_in_bbox]).  The
    first record whose bounding box holds the point is returned, and its
    index printed; when no bounding box holds the point the result is
    absent and nothing is printed. *)
Theorem searchCatalog_first_match `{Afw.Geom} catalog x y w :
  let holds s := point_in_bbox x y (Afw.fp_bbox (Afw.getFootprint s)) in
  (∀ i s,
     records_of catalog w !! i = Some s →
     holds s = inr true →
     (∀ j s', j < i → records_of catalog w !! j = Some s' → holds s' = inr false) →
     searchCatalog catalog x y w =
       (inr (Some s), Plt.set_stdout (Plt.stdout w ++ [pretty i]) w)) ∧
  (Forall (λ s, holds s = inr false) (records_of catalog w) →
   searchCatalog catalog x y w = (inr None, w)).
Proof.
  intros holds. split.
  - intros i s Hi Hs Hbefore. unfold searchCatalog, get_catalog, Plt.bind.
    fold (records_of catalog w).
    by rewrite (searchCatalog_loop_found x y _ 0 i s w Hi Hs Hbefore).
  - intros Hall. unfold searchCatalog, get_catalog, Plt.bind.
    fold (records_of catalog w). by apply searchCatalog_loop_absent.
Qed.

Lemma searchCatalog_first_match_witness :
  @searchCatalog integer_boxes 0 (Np.Fin (5 # 2)) (Np.Fin (3 # 2)) sample_world =
    (inr (Some sample_source),
     Plt.set_stdout (Plt.stdout sample_world ++ [pretty 1]) sample_world) ∧
  @searchCatalog integer_boxes 0 (Np.Fin 9) (Np.Fin 9) sample_world =
    (inr None, sample_world).
Proof.
  split.
  - apply (proj1 (@searchCatalog_first_match integer_boxes 0 (Np.Fin (5 # 2))
                    (Np.Fin (3 # 2)) sample_world) 1 sample_source).
    + reflexivity.
    + reflexivity.
    + intros j s' Hj Hs'. destruct j as [|j]; [|lia].
      vm_compute in Hs'. injection Hs' as <-. reflexivity.
  - apply (proj2 (@searchCatalog_first_match integer_boxes 0 (Np.Fin 9) (Np.Fin 9)
                    sample_world)).
    vm_compute. repeat constructor.
Defined.

(** ** The panel composers *)

Section composers.

(** What a call of [displayMaskedImage] that returns has drawn: the data
    plane, then the mask plane and the variance plane when asked for. *)
Lemma displayMaskedImage_inv maskedImage showMasks showVariance showBars width height
    w r w1 :
  Plt.backend w = true →
  displayMaskedImage maskedImage showMasks showVariance showBars width height w
    = (inr r, w1) →
  ∃ pd pm pv,
    draws w w1 ([pd] ++ pm ++ pv) ∧
    Plt.p_title pd = "Data" ∧ Plt.p_data pd = Afw.mi_image maskedImage ∧
    (if showMasks then ∃ p, pm = [p] ∧ Plt.p_title p = "Masks" ∧
                            Plt.p_data p = Afw.mi_mask maskedImage
     else pm = []) ∧
    (if showVariance then ∃ p, pv = [p] ∧ Plt.p_title p = "Variance" ∧
                               Plt.p_data p = Afw.mi_variance maskedImage
     else pv = []).
Proof.
  intros Hb. unfold displayMaskedImage.
  rewrite (bind_run _ _ _ _ _ (importMatplotlib_present w Hb)). simpl.
  intros Hrun.
  apply bind_inr in Hrun as (fig & w2 & [-> Hd2]%figure_draws & Hrun).
  apply bind_inr in Hrun as (u & w3 & [Hd3 _]%subplot_draws & Hrun).
  apply bind_inr in Hrun as (h & w4 & Hdata & Hrun).
  apply display2dArray_draws in Hdata as (pd & Hd4 & Htd & _ & Hdd & _);
    [|by rewrite (proj1 Hd3), (proj1 Hd2)].
  pose proof (draws_trans _ _ _ _ _ (draws_trans _ _ _ _ _ Hd2 Hd3) Hd4) as Hd.
  simpl in Hd. clear Hd2 Hd3 Hd4.
  assert (Plt.backend w4 = true) as Hb4 by (by rewrite (proj1 Hd)).
  apply bind_inr in Hrun as (hm & w5 & Hmask & Hrun).
  assert (∃ pm, draws w4 w5 pm ∧
            if showMasks then ∃ p, pm = [p] ∧ Plt.p_title p = "Masks" ∧
                                   Plt.p_data p = Afw.mi_mask maskedImage
            else pm = []) as (pm & Hdm & Hpm).
  { destruct showMasks.
    - apply bind_inr in Hmask as (u' & w' & [Hd' _]%subplot_draws & Hmask).
      apply display2dArray_draws in Hmask as (p & Hdp & Htp & _ & Hdp' & _);
        [|by rewrite (proj1 Hd')].
      exists [p]. split; [by apply (draws_trans w4 w' w5 [] [p])|by exists p].
    - apply ret_inr in Hmask as [_ ->]. exists []. split; [apply draws_refl|done]. }
  assert (Plt.backend w5 = true) as Hb5 by (by rewrite (proj1 Hdm)).
  apply bind_inr in Hrun as (hv & w6 & Hvar & Hrun).
  assert (∃ pv, draws w5 w6 pv ∧
            if showVariance then ∃ p, pv = [p] ∧ Plt.p_title p = "Variance" ∧
                                      Plt.p_data p = Afw.mi_variance maskedImage
            else pv = []) as (pv & Hdv & Hpv).
  { destruct showVariance.
    - apply bind_inr in Hvar as (u' & w' & [Hd' _]%subplot_draws & Hvar).
      apply display2dArray_draws in Hvar as (p & Hdp & Htp & _ & Hdp' & _);
        [|by rewrite (proj1 Hd')].
      exists [p]. split; [by apply (draws_trans w5 w' w6 [] [p])|by exists p].
    - apply ret_inr in Hvar as [_ ->]. exists []. split; [apply draws_refl|done]. }
  apply ret_inr in Hrun as [_ ->].
  exists pd, pm, pv. split; [|done].
  apply (draws_trans w w4 w6 [pd] (pm ++ pv)); [exact Hd|].
  by apply (draws_trans w4 w5 w6).
Qed.

End composers.

(** C9 (the code departs from it).  Without the PSF panel,
    [displayExposure] draws the variance plane whether or not it was asked
    for: its argument [showVariance] is not looked at. *)
Theorem displayExposure_variance_unasked exposure showMasks showVariance showBars
    width height w r w1 :
  Plt.backend w = true →
  displayExposure exposure showMasks showVariance false showBars width height w
    = (inr r, w1) →
  ∃ new p, Plt.panels w1 = Plt.panels w ++ new ∧ p ∈ new ∧
    Plt.p_title p = "Variance" ∧
    Plt.p_data p = Afw.mi_variance (Afw.getMaskedImage exposure).
Proof.
  intros Hb. unfold displayExposure.
  rewrite (bind_run _ _ _ _ _ (importMatplotlib_present w Hb)). simpl.
  intros Hrun.
  apply bind_inr in Hrun as (fig & w2 & Hmi & Hrun).
  apply bind_inr in Hrun as (u & w3 & [_ ->]%ret_inr & Hrun).
  apply ret_inr in Hrun as [_ ->].
  apply displayMaskedImage_inv in Hmi as (pd & pm & pv & Hd & _ & _ & _ & Hpv); [|done].
  destruct Hpv as (p & -> & Htitle & Hdata).
  exists ([pd] ++ pm ++ [p]), p. split; [apply Hd|]. split; [|done].
  apply elem_of_app. right. apply elem_of_app. right. apply elem_of_cons. by left.
Qed.

Lemma displayExposure_variance_unasked_witness :
  ∃ new p,
    Plt.panels (displayExposure sample_exposure true false false true 8 (5 # 2)%Q
                  sample_world).2 = Plt.panels sample_world ++ new ∧
    p ∈ new ∧ Plt.p_title p = "Variance" ∧
    Plt.p_data p = Afw.mi_variance (Afw.getMaskedImage sample_exposure).
Proof.
  apply (displayExposure_variance_unasked sample_exposure true false true 8 (5 # 2)%Q
           sample_world (Some 0)).
  - reflexivity.
  - vm_compute. reflexivity.
Defined.

(** C10 (the code departs from it).  With a backend, [displayImage] hands
    the image itself, not a tuple holding it, to [displayImages]: a figure
    is created, the iteration over the image raises a [TypeError], and no
    panel is drawn. *)
Theorem displayImage_draws_nothing image showBars width height w :
  Plt.backend w = true →
  (displayImage image showBars width height w).1 = Py.raise Py.TypeError ∧
  Plt.panels (displayImage image showBars width height w).2 = Plt.panels w.
Proof.
  intros Hb. unfold displayImage, displayImages.
  rewrite (bind_run _ _ _ _ _ (importMatplotlib_present w Hb)). by simpl.
Qed.

Lemma displayImage_draws_nothing_witness :
  (displayImage (Afw.getImage (Afw.getMaskedImage sample_exposure)) true 8 (5 # 2)%Q
     sample_world).1 = Py.raise Py.TypeError ∧
  Plt.panels (displayImage (Afw.getImage (Afw.getMaskedImage sample_exposure)) true 8
                (5 # 2)%Q sample_world).2 = Plt.panels sample_world.
Proof. apply displayImage_draws_nothing. reflexivity. Defined.

(* ================================================================== *)
(** * Further properties *)

(** ** More on the contrast estimator *)

(** [zscale] returns a range exactly when ten real samples remain: with
    nine or fewer, [chop_size] is zero, the slice [samples[0:-0]] is empty
    and reading its middle element raises an [IndexError]. *)
Theorem zscale_ten_samples input_img contrast :
  (length (finite_samples input_img) < 10 →
   zscale input_img contrast = Py.raise Py.IndexError) ∧
  (10 ≤ length (finite_samples input_img) →
   ∃ z1 z2, zscale input_img contrast = Py.ok (z1, z2)).
Proof.
  split.
  - intros Hlen. by apply zscale_empty, zscale_subset_short.
  - apply zscale_ok.
Qed.

Lemma zscale_ten_samples_witness :
  zscale [ramp 0 3; ramp 3 3; ramp 6 3] (1 # 4) = Py.raise Py.IndexError ∧
  ∃ z1 z2, zscale [ramp 0 5; ramp 5 5] (1 # 4) = Py.ok (z1, z2).
Proof.
  split.
  - apply (proj1 (zscale_ten_samples [ramp 0 3; ramp 3 3; ramp 6 3] (1 # 4))).
    vm_compute. lia.
  - apply (proj2 (zscale_ten_samples [ramp 0 5; ramp 5 5] (1 # 4))).
    vm_compute. lia.
Defined.

(** The range brackets the centre value: when the samples that are not
    not-a-number are finite and at least ten, the contrast is positive and
    finite, and the fit returns a slope that is not negative, the middle
    element of the trimmed subset lies between the two bounds. *)
Theorem zscale_brackets_center {A : Ieee.Arith} {L : Ieee.Laws A} input_img contrast slope intercept :
  let subset := Ieee.zscale_subset input_img in
  Forall (λ v, Ieee.isnan v = false → Ieee.isfinite v = true) (concat input_img) →
  10 ≤ length (Ieee.drop_nan (concat input_img)) →
  Ieee.lt_prop (Ieee.of_int 0) contrast →
  Ieee.isfinite contrast = true →
  Ieee.polyfit (Ieee.arange_minus (length subset) (length subset / 2)) subset
    = Py.ok (slope, intercept) →
  Ieee.le (Ieee.of_int 0) slope = true →
  ∃ center z1 z2,
    subset !! (length subset / 2) = Some center ∧
    Ieee.zscale input_img contrast = Py.ok (z1, z2) ∧
    Ieee.le z1 center = true ∧ Ieee.le center z2 = true.
Proof.
  intros subset Hall Hlen Hpos Hc Hfit Hslope.
  destruct (ieee_zscale_value input_img contrast slope intercept Hlen Hfit)
    as (center & Hcenter & Hin & Hlow & Hhigh & ->).
  pose proof (ieee_center_finite _ _ Hall Hin) as Hfin.
  destruct (ieee_bounds center slope contrast Hfin Hslope Hpos Hc) as [Hdown Hup].
  eexists center, _, _. split; [done|]. split; [reflexivity|].
  split; [by apply Hdown|by apply Hup].
Qed.

Lemma zscale_brackets_center_witness :
  let subset := Ieee.zscale_subset (A := Ieee.exact) [xramp 0 5; xramp 5 5] in
  ∃ center z1 z2,
    subset !! (length subset / 2) = Some center ∧
    Ieee.zscale (A := Ieee.exact) [xramp 0 5; xramp 5 5] (Ieee.XFin (1 # 4))
      = Py.ok (z1, z2) ∧
    Ieee.xle z1 center = true ∧ Ieee.xle center z2 = true.
Proof.
  eapply (zscale_brackets_center (L := exact_laws) [xramp 0 5; xramp 5 5]
            (Ieee.XFin (1 # 4))).
  - vm_compute. repeat (constructor; [done|]). constructor.
  - vm_compute. lia.
  - by vm_compute.
  - reflexivity.
  - vm_compute. reflexivity.
  - by vm_compute.
Defined.

(** A lower contrast widens the range: under the same conditions, for two
    positive contrasts, the range computed with the larger one lies within
    the range computed with the smaller one. *)
Theorem zscale_contrast_nested {A : Ieee.Arith} {L : Ieee.Laws A} input_img c1 c2 slope intercept :
  let subset := Ieee.zscale_subset input_img in
  Forall (λ v, Ieee.isnan v = false → Ieee.isfinite v = true) (concat input_img) →
  10 ≤ length (Ieee.drop_nan (concat input_img)) →
  Ieee.lt_prop (Ieee.of_int 0) c1 →
  Ieee.le c1 c2 = true →
  Ieee.isfinite c2 = true →
  Ieee.polyfit (Ieee.arange_minus (length subset) (length subset / 2)) subset
    = Py.ok (slope, intercept) →
  Ieee.le (Ieee.of_int 0) slope = true →
  ∃ l1 h1 l2 h2,
    Ieee.zscale input_img c1 = Py.ok (l1, h1) ∧
    Ieee.zscale input_img c2 = Py.ok (l2, h2) ∧
    Ieee.le l1 l2 = true ∧ Ieee.le h2 h1 = true.
Proof.
  intros subset Hall Hlen Hpos Hc12 Hc2 Hfit Hslope.
  destruct (ieee_zscale_value input_img c1 slope intercept Hlen Hfit)
    as (center & Hcenter & Hin & Hlow & Hhigh & ->).
  destruct (ieee_zscale_value input_img c2 slope intercept Hlen Hfit)
    as (center' & Hcenter' & _ & _ & _ & ->).
  assert (center' = center) as -> by congruence.
  pose proof (ieee_center_finite _ _ Hall Hin) as Hfin.
  pose proof (Ieee.div_antitone slope c1 c2 Hslope Hpos Hc12 Hc2) as Ht.
  assert (Ieee.le (Ieee.of_int 0) (Ieee.div slope c2) = true) as Ht2.
  { apply Ieee.div_nonneg; [done| |done].
    destruct Hpos as [Hle Hnle]. split.
    - exact (Ieee.le_trans _ _ _ Hle Hc12).
    - destruct (Ieee.le c2 (Ieee.of_int 0)) eqn:Hle2; [|done].
      pose proof (Ieee.le_trans _ _ _ Hc12 Hle2). congruence. }
  eexists _, _, _, _. split; [reflexivity|]. split; [reflexivity|]. split.
  - apply Ieee.add_monotone; [done|].
    apply Ieee.div_one_l, Ieee.div_one_r. by apply Ieee.mul_int_antitone.
  - apply Ieee.add_monotone; [done|].
    apply Ieee.div_one_l, Ieee.div_one_r. by apply Ieee.mul_int_monotone.
Qed.

Lemma zscale_contrast_nested_witness :
  ∃ l1 h1 l2 h2,
    Ieee.zscale (A := Ieee.exact) [xramp 0 5; xramp 5 5] (Ieee.XFin (1 # 4))
      = Py.ok (l1, h1) ∧
    Ieee.zscale (A := Ieee.exact) [xramp 0 5; xramp 5 5] (Ieee.XFin (1 # 2))
      = Py.ok (l2, h2) ∧
    Ieee.xle l1 l2 = true ∧ Ieee.xle h2 h1 = true.
Proof.
  eapply (zscale_contrast_nested (L := exact_laws) [xramp 0 5; xramp 5 5]
            (Ieee.XFin (1 # 4)) (Ieee.XFin (1 # 2))).
  - vm_compute. repeat (constructor; [done|]). constructor.
  - vm_compute. lia.
  - by vm_compute.
  - by vm_compute.
  - reflexivity.
  - vm_compute. reflexivity.
  - by vm_compute.
Defined.

(** ** Ranges up to the equality of numbers *)

Section up_to_Qeq.

Local Open Scope Q_scope.

Lemma zscale_range_of_subset input_img contrast :
  zscale input_img contrast = range_of_subset (zscale_subset input_img) contrast.
Proof. reflexivity. Qed.

Lemma same_range_refl r : same_range r r.
Proof. destruct r as [e|[z1 z2]]; simpl; [done|]. split; reflexivity. Qed.

Lemma same_range_trans r1 r2 r3 : same_range r1 r2 → same_range r2 r3 → same_range r1 r3.
Proof.
  destruct r1 as [e1|[a1 b1]], r2 as [e2|[a2 b2]], r3 as [e3|[a3 b3]]; simpl;
    try done; try congruence.
  intros [Ha Hb] [Ha' Hb']. split; [by rewrite Ha|by rewrite Hb].
Qed.

Lemma Qsum_Qeq l l' : Forall2 Qeq l l' → Np.Qsum l == Np.Qsum l'.
Proof. induction 1 as [|y y' l l' Hy _ IH]; simpl; [reflexivity|]. by rewrite Hy, IH. Qed.

Lemma Qsum_zip_Qeq x l l' :
  Forall2 Qeq l l' → Np.Qsum (zip_with Qmult x l) == Np.Qsum (zip_with Qmult x l').
Proof.
  intros Hl. revert x. induction Hl as [|y y' l l' Hy _ IH]; intros [|xi x]; simpl;
    try reflexivity.
  by rewrite Hy, IH.
Qed.

Lemma cov_Qeq x l l' : Forall2 Qeq l l' → cov x l == cov x l'.
Proof.
  intros Hl. unfold cov. by rewrite (Qsum_zip_Qeq x l l' Hl), (Qsum_Qeq l l' Hl).
Qed.

(** Subsets that hold equal numbers give equal ranges. *)
Lemma range_of_subset_Qeq s s' contrast :
  Forall2 Qeq s s' →
  same_range (range_of_subset s contrast) (range_of_subset s' contrast).
Proof.
  intros Hs. pose proof (Forall2_length _ _ _ Hs) as Hlen.
  unfold range_of_subset. cbv zeta. rewrite <- Hlen. unfold Py.getitem.
  destruct (s !! (length s / 2)%nat) as [center|] eqn:Hc.
  - destruct (Forall2_lookup_l _ _ _ _ _ Hs Hc) as (center' & -> & Hcc).
    assert (length s ≠ 0%nat) as Hne.
    { apply lookup_lt_Some in Hc. lia. }
    rewrite !polyfit1_ok by (rewrite arange_minus_length; done).
    unfold same_range, Py.bind, Py.ok. cbv beta iota delta [fst].
    rewrite (cov_Qeq (Np.arange_minus (length s) (length s / 2)) s s' Hs), Hcc.
    split; reflexivity.
  - apply lookup_ge_None in Hc.
    rewrite (lookup_ge_None_2 s' (length s / 2)) by lia. done.
Qed.

(** A slice of two sequences of equal numbers. *)
Lemma slice_Forall2 (l l' : list Q) start stop :
  Forall2 Qeq l l' → Forall2 Qeq (Py.slice l start stop) (Py.slice l' start stop).
Proof.
  intros Hl. unfold Py.slice. rewrite <- (Forall2_length _ _ _ Hl).
  by apply Forall2_take, Forall2_drop.
Qed.

(** Two ascending arrangements of the same numbers hold equal numbers at
    each place. *)
Lemma sorted_perm_Qeq l1 l2 :
  StronglySorted Qle l1 → StronglySorted Qle l2 → l1 ≡ₚ l2 → Forall2 Qeq l1 l2.
Proof.
  intros Hs1 Hs2 Hperm.
  assert (Qred <$> l1 = Qred <$> l2) as Heq.
  { apply (StronglySorted_unique_strong Qle).
    - intros x1 x2 (u & -> & _)%list_elem_of_fmap (v & -> & _)%list_elem_of_fmap H12 H21.
      apply Qred_complete. rewrite <- (Qred_correct u), <- (Qred_correct v).
      by apply Qle_antisym.
    - eapply (StronglySorted_fmap _ Qle Qle); [|done].
      intros x y Hxy. by rewrite !Qred_correct.
    - eapply (StronglySorted_fmap _ Qle Qle); [|done].
      intros x y Hxy. by rewrite !Qred_correct.
    - by rewrite Hperm. }
  apply Forall2_same_length_lookup_2.
  - apply (f_equal length) in Heq. by rewrite !length_fmap in Heq.
  - intros i x y Hx Hy. apply Qred_eq_iff.
    apply (f_equal (.!! i)) in Heq. rewrite !list_lookup_fmap, Hx, Hy in Heq.
    by injection Heq.
Qed.

(** The trimmed subsets of two inputs whose sorted samples hold equal
    numbers. *)
Lemma zscale_subset_Qeq a a' :
  Forall2 Qeq (Np.sort (finite_samples a)) (Np.sort (finite_samples a')) →
  Forall2 Qeq (zscale_subset a) (zscale_subset a').
Proof.
  intros Hs. unfold zscale_subset. cbv zeta. fold (finite_samples a) (finite_samples a').
  rewrite <- (Forall2_length _ _ _ Hs). by apply slice_Forall2.
Qed.

End up_to_Qeq.

(** The range does not depend on the order of the samples, and so not on
    the shape of the array: two inputs whose flattened entries are a
    permutation of each other give equal ranges, or fail alike. *)
Theorem zscale_permutation input_img input_img' contrast :
  Np.flatten input_img ≡ₚ Np.flatten input_img' →
  same_range (zscale input_img contrast) (zscale input_img' contrast).
Proof.
  intros Hperm. rewrite !zscale_range_of_subset.
  apply range_of_subset_Qeq, zscale_subset_Qeq, sorted_perm_Qeq; [apply sort_sorted..|].
  unfold Np.sort, finite_samples, Np.drop_nan.
  by rewrite !merge_sort_Permutation, Hperm.
Qed.

Lemma zscale_permutation_witness :
  same_range (zscale [ramp 0 5; ramp 5 5] (1 # 4)) (zscale [ramp 5 5; ramp 0 5] (1 # 4)).
Proof.
  apply zscale_permutation. unfold Np.flatten. cbn [concat].
  rewrite !app_nil_r. apply Permutation_app_comm.
Defined.

(** ** Drawing, step by step *)

Section drawing.

(** With a backend, a current figure and ten real samples,
    [display2dArray] draws one panel in the current subplot of the current
    figure and returns its handle. *)
Lemma display2dArray_run arr title showBars extent w :
  Plt.backend w = true →
  Plt.figures w ≠ [] →
  10 ≤ length (finite_samples arr) →
  ∃ p, display2dArray arr title showBars extent w
       = (inr (Some (length (Plt.panels w))), drawn w p) ∧
       panel_for (length (Plt.figures w) - 1) (Plt.axes w) title extent arr showBars p.
Proof.
  intros Hb Hfig Hlen. unfold display2dArray.
  rewrite (bind_run _ _ _ _ _ (importMatplotlib_present w Hb)). simpl.
  destruct (zscale_ok arr (1 # 4) Hlen) as (z1 & z2 & Hz).
  unfold Plt.bind, Plt.lift. rewrite Hz.
  unfold Plt.imshow, Plt.bind, Plt.gcf, Plt.ret, Py.ok.
  destruct (Plt.figures w) as [|f fs] eqn:Hf; [done|].
  eexists. split; [reflexivity|]. by repeat split.
Qed.

(** A panel that is drawn on request only, in a place of the 1 x 3 grid. *)
Lemma optional_panel_run (show : bool) index arr title showBars extent w :
  Plt.backend w = true →
  Plt.figures w ≠ [] →
  (show = true → 10 ≤ length (finite_samples arr)) →
  ∃ r w1 ps,
    (if show
     then let! _ := Plt.subplot 1 3 index in display2dArray arr title showBars extent
     else Plt.ret None) w = (inr r, w1) ∧
    Plt.backend w1 = true ∧ Plt.figures w1 = Plt.figures w ∧
    Plt.panels w1 = Plt.panels w ++ ps ∧
    (if show
     then ∃ p, ps = [p] ∧
               panel_for (length (Plt.figures w) - 1) (1, 3, index) title extent arr
                 showBars p
     else ps = []).
Proof.
  intros Hb Hfig Hlen. destruct show.
  - unfold Plt.bind at 1, Plt.subplot, Plt.modify.
    destruct (display2dArray_run arr title showBars extent (Plt.set_axes (1, 3, index) w))
      as (p & Hrun & Hp); [done|done|by apply Hlen|].
    eexists _, _, [p]. split; [exact Hrun|]. repeat split; try done. by exists p.
  - exists None, w, []. split; [done|]. repeat split; try done. by rewrite app_nil_r.
Qed.

(** Without a backend every entry point stops at the probe. *)
Lemma importMatplotlib_absent w :
  Plt.backend w = false → importMatplotlib w = (inr false, warned w).
Proof. intros Hb. unfold importMatplotlib. by rewrite Hb. Qed.

End drawing.

(** Without a plotting backend every display function is a silent no-op:
    it returns nothing, raises nothing, draws nothing, and leaves the world
    as it was but for one logged warning.  [dpDisplayImages], which calls
    [displayExposure] three times, logs three. *)
Theorem no_backend_no_op w arr title showBars extent images width height image
    maskedImage showMasks showVariance exposure showPsf source pos neg
    asHeavyFootprint figsize dipoleImage :
  Plt.backend w = false →
  display2dArray arr title showBars extent w = (inr None, warned w) ∧
  displayImages images showBars width height w = (inr None, warned w) ∧
  displayImage image showBars width height w = (inr None, warned w) ∧
  displayMaskedImage maskedImage showMasks showVariance showBars width height w
    = (inr None, warned w) ∧
  displayExposure exposure showMasks showVariance showPsf showBars width height w
    = (inr None, warned w) ∧
  displayCutouts source exposure pos neg asHeavyFootprint title figsize w
    = (inr None, warned w) ∧
  dpDisplayCutouts dipoleImage source asHeavyFootprint w = (inr (), warned w) ∧
  dpDisplayImages dipoleImage w = (inr (), warned (warned (warned w))).
Proof.
  intros Hb.
  assert (Plt.backend (warned w) = false) as Hb1 by done.
  assert (Plt.backend (warned (warned w)) = false) as Hb2 by done.
  unfold dpDisplayCutouts, dpDisplayImages, display2dArray, displayImage, displayImages,
    displayMaskedImage, displayExposure, displayCutouts.
  repeat split;
    repeat (first [rewrite (bind_run _ _ _ _ _ (importMatplotlib_absent w Hb))
                  |rewrite (bind_run _ _ _ _ _ (importMatplotlib_absent _ Hb1))
                  |rewrite (bind_run _ _ _ _ _ (importMatplotlib_absent _ Hb2))
                  |unfold Plt.bind at 1]; simpl);
    reflexivity.
Qed.

Lemma no_backend_no_op_witness :
  let w := Plt.mkWorld false [] [] [] (1, 1, 1) [] ∅ in
  displayExposure sample_exposure true true true true 8 (5 # 2)%Q w = (inr None, warned w).
Proof.
  intros w.
  apply (no_backend_no_op w [] "" true None (ATuple [])
           8 (5 # 2)%Q (Afw.getImage (Afw.getMaskedImage sample_exposure))
           (Afw.getMaskedImage sample_exposure) true true sample_exposure true
           sample_source None None false (8, 5 # 2)%Q
           (mkDipoleTestImage sample_exposure sample_exposure sample_exposure)).
  reflexivity.
Defined.

(** ** The places of the cutouts *)

Section cutout_layout.

(** One secondary panel, drawn when its exposure is supplied: the
    extraction, the choice of the place and the drawing. *)
Lemma secondary_panel_run asHeavyFootprint fp (image : option Afw.Exposure) index
    title extent w :
  Plt.backend w = true →
  Plt.figures w ≠ [] →
  Forall (λ e, ∃ sub, cutout asHeavyFootprint fp e = inr sub ∧
                      10 ≤ length (finite_samples (Afw.getArray sub)))
    (option_list image) →
  ∃ r w1 ps,
    match image with
    | Some e =>
        let! subexp := Plt.lift (cutout asHeavyFootprint fp e) in
        let! _ := Plt.subplot 1 3 index in
        display2dArray (Afw.getArray subexp) title true extent
    | None => Plt.ret None
    end w = (inr r, w1) ∧
    Plt.backend w1 = true ∧ Plt.figures w1 = Plt.figures w ∧
    Plt.panels w1 = Plt.panels w ++ ps ∧
    Forall2 (λ p e, ∃ sub, cutout asHeavyFootprint fp e = inr sub ∧
                           panel_for (length (Plt.figures w) - 1) (1, 3, index) title
                             extent (Afw.getArray sub) true p)
      ps (option_list image).
Proof.
  intros Hb Hfig Hall. destruct image as [e|]; simpl in *.
  - apply Forall_cons in Hall as [(sub & Hsub & Hlen) _].
    unfold Plt.bind at 1, Plt.lift. rewrite Hsub.
    unfold Plt.bind at 1, Plt.subplot, Plt.modify.
    destruct (display2dArray_run (Afw.getArray sub) title true extent
                (Plt.set_axes (1, 3, index) w)) as (p & Hrun & Hp); [done..|].
    eexists _, _, [p]. split; [exact Hrun|]. repeat split; try done.
    constructor; [|constructor]. by exists sub.
  - exists None, w, []. split; [done|]. repeat split; try done.
    all: by rewrite ?app_nil_r.
Qed.

(** The run of [displayCutouts], panel by panel. *)
Lemma displayCutouts_run source exposure posImage negImage asHeavyFootprint
    title figsize w :
  let fp := Afw.getFootprint source in
  let fig := length (Plt.figures w) in
  let extent := Some (bbox_extent (Afw.fp_bbox fp)) in
  Plt.backend w = true →
  Forall (λ e, ∃ sub, cutout asHeavyFootprint fp e = inr sub ∧
                      10 ≤ length (finite_samples (Afw.getArray sub)))
    (exposure :: supplied posImage negImage) →
  ∃ w1 pd pp pn,
    displayCutouts source exposure posImage negImage asHeavyFootprint title figsize w
      = (inr (Some fig), w1) ∧
    Plt.panels w1 = Plt.panels w ++ [pd] ++ pp ++ pn ∧
    (∃ sub, cutout asHeavyFootprint fp exposure = inr sub ∧
            panel_for fig (1, 3, 1) (title +:+ " Diffim") extent (Afw.getArray sub) true pd) ∧
    Forall2 (λ p e, ∃ sub, cutout asHeavyFootprint fp e = inr sub ∧
                           panel_for fig (1, 3, 2) (title +:+ " Pos") extent
                             (Afw.getArray sub) true p)
      pp (option_list posImage) ∧
    Forall2 (λ p e, ∃ sub, cutout asHeavyFootprint fp e = inr sub ∧
                           panel_for fig (1, 3, 3) (title +:+ " Neg") extent
                             (Afw.getArray sub) true p)
      pn (option_list negImage).
Proof.
  intros fp fig extent Hb Hall.
  apply Forall_cons in Hall as [(sub & Hsub & Hlen) Hall].
  unfold supplied in Hall. apply Forall_app in Hall as [Hpos Hneg].
  unfold displayCutouts.
  rewrite (bind_run _ _ _ _ _ (importMatplotlib_present w Hb)). simpl.
  fold fp. fold extent.
  unfold Plt.bind at 1, Plt.figure.
  unfold Plt.bind at 1, Plt.lift at 1. unfold cutout in Hsub. rewrite Hsub.
  unfold Plt.bind at 1, Plt.subplot at 1, Plt.modify at 1.
  set (w3 := Plt.set_axes (1, 3, 1) _).
  assert (length (Plt.figures w ++ [figsize]) - 1 = fig) as Hfig.
  { rewrite length_app. simpl. unfold fig. lia. }
  assert (Plt.figures w ++ [figsize] ≠ []) as Hne.
  { by destruct (Plt.figures w). }
  destruct (display2dArray_run (Afw.getArray sub) (title +:+ " Diffim") true extent w3)
    as (pd & Hrun & Hpd); [done|done|done|].
  simpl in Hpd. rewrite Hfig in Hpd.
  unfold Plt.bind at 1. rewrite Hrun.
  destruct (secondary_panel_run asHeavyFootprint fp posImage 2 (title +:+ " Pos") extent
              (drawn w3 pd))
    as (rp & w5 & pp & Hrunp & Hb5 & Hf5 & Hp5 & Hpp); [done|done|done|].
  simpl in Hf5, Hp5, Hpp. rewrite Hfig in Hpp.
  unfold Plt.bind at 1. unfold cutout in Hrunp. rewrite Hrunp.
  destruct (secondary_panel_run asHeavyFootprint fp negImage 3 (title +:+ " Neg") extent w5)
    as (rn & w6 & pn & Hrunn & Hb6 & Hf6 & Hp6 & Hpn); [done|by rewrite Hf5|done|].
  rewrite Hf5, Hfig in Hpn.
  unfold Plt.bind at 1. unfold cutout in Hrunn. rewrite Hrunn.
  exists w6, pd, pp, pn. split; [done|].
  split; [rewrite Hp6, Hp5; by rewrite <- !(assoc_L (++))|].
  split; [by exists sub|]. by split.
Qed.

End cutout_layout.

(** C8.  With a backend, when each cutout can be extracted and holds ten
    real pixels, [displayCutouts] opens a figure, returns it, and draws in
    it exactly one panel more than the number of secondary exposures
    supplied, each in a place of its own in the 1 x 3 grid: the ' Diffim'
    panel always, in the first place; the ' Pos' panel, in the second
    place, exactly when [posImage] is supplied; the ' Neg' panel, in the
    third place, exactly when [negImage] is supplied; the place of an
    absent exposure stays empty.  Every panel holds the cutout of its
    exposure and has the bounding box of the footprint as extent. *)
Theorem displayCutouts_panels source exposure posImage negImage asHeavyFootprint
    title figsize w :
  Plt.backend w = true →
  Forall (λ e, ∃ sub, cutout asHeavyFootprint (Afw.getFootprint source) e = inr sub ∧
                      10 ≤ length (finite_samples (Afw.getArray sub)))
    (exposure :: supplied posImage negImage) →
  ∃ w1 new,
    displayCutouts source exposure posImage negImage asHeavyFootprint title figsize w
      = (inr (Some (length (Plt.figures w))), w1) ∧
    Plt.panels w1 = Plt.panels w ++ new ∧
    length new = 1 + length (supplied posImage negImage) ∧
    Plt.p_title <$> new = (title +:+ " Diffim") :: secondary_titles title posImage negImage ∧
    Plt.p_subplot <$> new = (1, 3, 1) :: secondary_places posImage negImage ∧
    NoDup (Plt.p_subplot <$> new) ∧
    Forall (λ p, Plt.p_figure p = length (Plt.figures w) ∧
                 Plt.p_extent p =
                 Some (bbox_extent (Afw.fp_bbox (Afw.getFootprint source)))) new ∧
    Forall2 (λ p e, ∃ sub, cutout asHeavyFootprint (Afw.getFootprint source) e = inr sub ∧
                           Plt.p_data p = Afw.getArray sub)
      new (exposure :: supplied posImage negImage).
Proof.
  intros Hb Hall.
  destruct (displayCutouts_run source exposure posImage negImage asHeavyFootprint
              title figsize w Hb Hall)
    as (w1 & pd & pp & pn & Hrun & Hpanels & (sub & Hsub & Hpd) & Hpp & Hpn).
  exists w1, ([pd] ++ pp ++ pn). split; [done|]. split; [done|].
  destruct Hpd as (Hdf & Hds & Hdt & Hde & Hdd & _).
  destruct posImage as [pos|], negImage as [neg|]; simpl in Hpp, Hpn;
    repeat match goal with
      | H : Forall2 _ _ (_ :: _) |- _ =>
          apply Forall2_cons_inv_r in H
            as (? & ? & (? & ? & (? & ? & ? & ? & ? & _)) & ? & ->)
      | H : Forall2 _ _ [] |- _ => apply Forall2_nil_inv_r in H as ->
      end;
    unfold secondary_titles, secondary_places, supplied; simpl.
  all: split; [done|].
  all: split; [congruence|].
  all: split; [congruence|].
  all: split;
    [repeat match goal with
       | H : Plt.p_subplot _ = _ |- _ => rewrite H; clear H
       end; compute_done|].
  all: split; [repeat (constructor; [done|]); constructor|].
  all: repeat (constructor; [by eauto|]); constructor.
Qed.

Lemma displayCutouts_panels_witness :
  ∃ w1 new,
    displayCutouts sample_source sample_exposure None (Some sample_exposure) false
      "src" (8, 5 # 2)%Q sample_world = (inr (Some (length (Plt.figures sample_world))), w1) ∧
    Plt.panels w1 = Plt.panels sample_world ++ new ∧
    length new = 1 + length (supplied None (Some sample_exposure)) ∧
    Plt.p_title <$> new =
      ("src" +:+ " Diffim") :: secondary_titles "src" None (Some sample_exposure) ∧
    Plt.p_subplot <$> new = (1, 3, 1) :: secondary_places None (Some sample_exposure) ∧
    NoDup (Plt.p_subplot <$> new) ∧
    Forall (λ p, Plt.p_figure p = length (Plt.figures sample_world) ∧
                 Plt.p_extent p =
                 Some (bbox_extent (Afw.fp_bbox (Afw.getFootprint sample_source)))) new ∧
    Forall2 (λ p e, ∃ sub, cutout false (Afw.getFootprint sample_source) e = inr sub ∧
                           Plt.p_data p = Afw.getArray sub)
      new (sample_exposure :: supplied None (Some sample_exposure)).
Proof.
  apply (displayCutouts_panels sample_source sample_exposure None (Some sample_exposure)
           false "src" (8, 5 # 2)%Q sample_world).
  - reflexivity.
  - repeat constructor; (eexists; split; [vm_compute; reflexivity|vm_compute; lia]).
Defined.

(** ** Layout of the composed figures *)

Section layout.

(** The run of [displayMaskedImage], panel by panel. *)
Lemma displayMaskedImage_run maskedImage showMasks showVariance showBars width height w :
  let fig := length (Plt.figures w) in
  let extent := Some (bbox_extent (Afw.mi_bbox maskedImage)) in
  Plt.backend w = true →
  10 ≤ length (finite_samples (Afw.mi_image maskedImage)) →
  (showMasks = true → 10 ≤ length (finite_samples (Afw.mi_mask maskedImage))) →
  (showVariance = true → 10 ≤ length (finite_samples (Afw.mi_variance maskedImage))) →
  ∃ w1 pd pm pv,
    displayMaskedImage maskedImage showMasks showVariance showBars width height w
      = (inr (Some fig), w1) ∧
    Plt.figures w1 = Plt.figures w ++ [(width, height)] ∧
    Plt.panels w1 = Plt.panels w ++ [pd] ++ pm ++ pv ∧
    Plt.backend w1 = true ∧
    panel_for fig (1, 3, 1) "Data" extent (Afw.mi_image maskedImage) showBars pd ∧
    (if showMasks
     then ∃ p, pm = [p] ∧
               panel_for fig (1, 3, 2) "Masks" extent (Afw.mi_mask maskedImage) showBars p
     else pm = []) ∧
    (if showVariance
     then ∃ p, pv = [p] ∧
               panel_for fig (1, 3, 3) "Variance" extent (Afw.mi_variance maskedImage)
                 showBars p
     else pv = []).
Proof.
  intros fig extent Hb Himage Hmask Hvar. unfold displayMaskedImage.
  rewrite (bind_run _ _ _ _ _ (importMatplotlib_present w Hb)). simpl.
  unfold Plt.bind at 1, Plt.figure.
  unfold Plt.bind at 1, Plt.subplot at 1, Plt.modify at 1.
  set (w3 := Plt.set_axes (1, 3, 1) _).
  assert (length (Plt.figures w ++ [(width, height)]) - 1 = fig) as Hfig.
  { rewrite length_app. simpl. unfold fig. lia. }
  assert (Plt.figures w ++ [(width, height)] ≠ []) as Hne.
  { by destruct (Plt.figures w). }
  destruct (display2dArray_run (Afw.mi_image maskedImage) "Data" showBars extent w3)
    as (pd & Hrun & Hpd); [done|done|done|].
  simpl in Hpd. rewrite Hfig in Hpd.
  unfold Plt.bind at 1. fold extent. rewrite Hrun.
  destruct (optional_panel_run showMasks 2 (Afw.mi_mask maskedImage) "Masks" showBars
              extent (drawn w3 pd))
    as (rm & w5 & pm & Hrunm & Hb5 & Hf5 & Hp5 & Hpm); [done|done|done|].
  simpl in Hf5, Hp5, Hpm. rewrite Hfig in Hpm.
  unfold Plt.bind at 1. rewrite Hrunm.
  destruct (optional_panel_run showVariance 3 (Afw.mi_variance maskedImage) "Variance"
              showBars extent w5)
    as (rv & w6 & pv & Hrunv & Hb6 & Hf6 & Hp6 & Hpv); [done|by rewrite Hf5|done|].
  rewrite Hf5, Hfig in Hpv.
  unfold Plt.bind at 1. rewrite Hrunv.
  exists w6, pd, pm, pv. split; [done|].
  split; [by rewrite Hf6, Hf5|]. split; [|done].
  rewrite Hp6, Hp5. by rewrite <- !(assoc_L (++)).
Qed.

(** The panels of that run follow the plan. *)
Lemma masked_plan_panels fig maskedImage (showMasks showVariance : bool) showBars
    (pd : Plt.panel) (pm pv : list Plt.panel) :
  let extent := Some (bbox_extent (Afw.mi_bbox maskedImage)) in
  panel_for fig (1, 3, 1) "Data" extent (Afw.mi_image maskedImage) showBars pd →
  (if showMasks
   then ∃ p, pm = [p] ∧
             panel_for fig (1, 3, 2) "Masks" extent (Afw.mi_mask maskedImage) showBars p
   else pm = []) →
  (if showVariance
   then ∃ p, pv = [p] ∧
             panel_for fig (1, 3, 3) "Variance" extent (Afw.mi_variance maskedImage)
               showBars p
   else pv = []) →
  panels_are fig showBars ([pd] ++ pm ++ pv) (masked_plan maskedImage showMasks showVariance).
Proof.
  intros extent Hpd Hpm Hpv. unfold panels_are, masked_plan.
  apply Forall2_app; [constructor; [exact Hpd|constructor]|].
  apply Forall2_app.
  - destruct showMasks; [destruct Hpm as (p & -> & Hp)|subst pm].
    + constructor; [exact Hp|constructor].
    + constructor.
  - destruct showVariance; [destruct Hpv as (p & -> & Hp)|subst pv].
    + constructor; [exact Hp|constructor].
    + constructor.
Qed.

End layout.

(** [displayMaskedImage] opens a new figure of the given size and draws,
    in a fixed 1 x 3 grid, the data plane in the first place, the mask plane
    in the second when asked for and the variance plane in the third when
    asked for, each under its title and all three at the bounding box of
    the masked image; it returns the figure.  A plane that is shown must
    hold ten real samples. *)
Theorem displayMaskedImage_layout maskedImage showMasks showVariance showBars
    width height w :
  Plt.backend w = true →
  10 ≤ length (finite_samples (Afw.mi_image maskedImage)) →
  (showMasks = true → 10 ≤ length (finite_samples (Afw.mi_mask maskedImage))) →
  (showVariance = true → 10 ≤ length (finite_samples (Afw.mi_variance maskedImage))) →
  ∃ w1 new,
    displayMaskedImage maskedImage showMasks showVariance showBars width height w
      = (inr (Some (length (Plt.figures w))), w1) ∧
    Plt.figures w1 = Plt.figures w ++ [(width, height)] ∧
    Plt.panels w1 = Plt.panels w ++ new ∧
    panels_are (length (Plt.figures w)) showBars new
      (masked_plan maskedImage showMasks showVariance).
Proof.
  intros Hb Himage Hmask Hvar.
  destruct (displayMaskedImage_run maskedImage showMasks showVariance showBars width
              height w Hb Himage Hmask Hvar)
    as (w1 & pd & pm & pv & Hrun & Hfig & Hpanels & _ & Hpd & Hpm & Hpv).
  exists w1, ([pd] ++ pm ++ pv). split; [done|]. split; [done|]. split; [done|].
  by apply masked_plan_panels.
Qed.

Lemma displayMaskedImage_layout_witness :
  ∃ w1 new,
    displayMaskedImage (Afw.getMaskedImage sample_exposure) true false true 8 (5 # 2)%Q
      sample_world = (inr (Some 0), w1) ∧
    Plt.figures w1 = Plt.figures sample_world ++ [(8, 5 # 2)%Q] ∧
    Plt.panels w1 = Plt.panels sample_world ++ new ∧
    panels_are 0 true new (masked_plan (Afw.getMaskedImage sample_exposure) true false).
Proof.
  apply (displayMaskedImage_layout (Afw.getMaskedImage sample_exposure) true false true
           8 (5 # 2)%Q sample_world).
  - reflexivity.
  - vm_compute. lia.
  - intros _. vm_compute. lia.
  - intros Hfalse. discriminate Hfalse.
Defined.

Section exposure_layout.

(** The run of [displayExposure] up to the PSF: the masked image is drawn
    with the variance plane exactly when the PSF is not asked for. *)
Lemma displayExposure_masked_part exposure showMasks showVariance showPsf showBars
    width height w :
  Plt.backend w = true →
  10 ≤ length (finite_samples (Afw.mi_image (Afw.getMaskedImage exposure))) →
  (showMasks = true →
   10 ≤ length (finite_samples (Afw.mi_mask (Afw.getMaskedImage exposure)))) →
  (showPsf = false →
   10 ≤ length (finite_samples (Afw.mi_variance (Afw.getMaskedImage exposure)))) →
  ∃ w1 new,
    displayExposure exposure showMasks showVariance showPsf showBars width height w =
      (let! _ := if showPsf then
                   let! _ := Plt.subplot 1 3 3 in
                   match Afw.getPsf exposure with
                   | None => Plt.throw Py.AttributeError
                   | Some psf =>
                       display2dArray (Afw.getArray (Afw.computeImage psf)) "PSF" showBars
                         (Some (bbox_extent (Afw.getBBox (Afw.computeImage psf))))
                   end
                 else Plt.ret None in
       Plt.ret (Some (length (Plt.figures w)))) w1 ∧
    Plt.backend w1 = true ∧
    Plt.figures w1 = Plt.figures w ++ [(width, height)] ∧
    Plt.panels w1 = Plt.panels w ++ new ∧
    panels_are (length (Plt.figures w)) showBars new
      (masked_plan (Afw.getMaskedImage exposure) showMasks (negb showPsf)).
Proof.
  intros Hb Himage Hmask Hvar. unfold displayExposure.
  rewrite (bind_run _ _ _ _ _ (importMatplotlib_present w Hb)). simpl.
  destruct (displayMaskedImage_run (Afw.getMaskedImage exposure) showMasks (negb showPsf)
              showBars width height w Hb Himage Hmask)
    as (w1 & pd & pm & pv & Hrun & Hfig & Hpanels & Hb1 & Hpd & Hpm & Hpv).
  { intros Hshow. apply Hvar. by destruct showPsf. }
  exists w1, ([pd] ++ pm ++ pv).
  split; [by rewrite (bind_run _ _ _ _ _ Hrun)|].
  split; [done|]. split; [done|]. split; [done|].
  by apply masked_plan_panels.
Qed.

(** The whole run, on an exposure that has the PSF it is asked to show. *)
Lemma displayExposure_run exposure showMasks showVariance showPsf showBars width height w :
  Plt.backend w = true →
  10 ≤ length (finite_samples (Afw.mi_image (Afw.getMaskedImage exposure))) →
  (showMasks = true →
   10 ≤ length (finite_samples (Afw.mi_mask (Afw.getMaskedImage exposure)))) →
  (showPsf = false →
   10 ≤ length (finite_samples (Afw.mi_variance (Afw.getMaskedImage exposure)))) →
  (showPsf = true →
   ∃ psf, Afw.getPsf exposure = Some psf ∧
          10 ≤ length (finite_samples (Afw.getArray (Afw.computeImage psf)))) →
  ∃ w1 new,
    displayExposure exposure showMasks showVariance showPsf showBars width height w
      = (inr (Some (length (Plt.figures w))), w1) ∧
    Plt.backend w1 = true ∧
    Plt.figures w1 = Plt.figures w ++ [(width, height)] ∧
    Plt.panels w1 = Plt.panels w ++ new ∧
    panels_are (length (Plt.figures w)) showBars new
      (exposure_plan exposure showMasks showPsf).
Proof.
  intros Hb Himage Hmask Hvar Hpsf.
  destruct (displayExposure_masked_part exposure showMasks showVariance showPsf showBars
              width height w Hb Himage Hmask Hvar)
    as (w1 & new & -> & Hb1 & Hfig & Hpanels & Hplan).
  unfold exposure_plan. destruct showPsf.
  - destruct (Hpsf eq_refl) as (psf & Hget & Hlen). rewrite Hget.
    unfold Plt.bind at 1. unfold Plt.bind at 1, Plt.subplot, Plt.modify.
    destruct (display2dArray_run (Afw.getArray (Afw.computeImage psf)) "PSF" showBars
                (Some (bbox_extent (Afw.getBBox (Afw.computeImage psf))))
                (Plt.set_axes (1, 3, 3) w1))
      as (p & Hrun & Hp); [done|by simpl; rewrite Hfig; destruct (Plt.figures w)|done|].
    simpl in Hp. rewrite Hfig, length_app, Nat.add_1_r, Nat.sub_1_r in Hp. simpl in Hp.
    rewrite Hrun. eexists _, (new ++ [p]). split; [reflexivity|].
    split; [exact Hb1|]. split; [exact Hfig|].
    split; [simpl; by rewrite Hpanels, (assoc_L (++))|].
    apply Forall2_app; [exact Hplan|]. constructor; [exact Hp|constructor].
  - unfold Plt.bind at 1. simpl. exists w1, new. rewrite app_nil_r. done.
Qed.

End exposure_layout.

(** [displayExposure] draws the data plane, the mask plane when asked for,
    and in the third place the PSF image, at the extent of its own bounding
    box, when [showPsf] is set and the variance plane when it is not; it
    returns the figure.  What is shown must hold ten real samples, and the
    PSF must be there when it is asked for. *)
Theorem displayExposure_layout exposure showMasks showVariance showPsf showBars
    width height w :
  Plt.backend w = true →
  10 ≤ length (finite_samples (Afw.mi_image (Afw.getMaskedImage exposure))) →
  (showMasks = true →
   10 ≤ length (finite_samples (Afw.mi_mask (Afw.getMaskedImage exposure)))) →
  (showPsf = false →
   10 ≤ length (finite_samples (Afw.mi_variance (Afw.getMaskedImage exposure)))) →
  (showPsf = true →
   ∃ psf, Afw.getPsf exposure = Some psf ∧
          10 ≤ length (finite_samples (Afw.getArray (Afw.computeImage psf)))) →
  ∃ w1 new,
    displayExposure exposure showMasks showVariance showPsf showBars width height w
      = (inr (Some (length (Plt.figures w))), w1) ∧
    Plt.figures w1 = Plt.figures w ++ [(width, height)] ∧
    Plt.panels w1 = Plt.panels w ++ new ∧
    panels_are (length (Plt.figures w)) showBars new
      (exposure_plan exposure showMasks showPsf).
Proof.
  intros Hb Himage Hmask Hvar Hpsf.
  destruct (displayExposure_run exposure showMasks showVariance showPsf showBars width
              height w Hb Himage Hmask Hvar Hpsf)
    as (w1 & new & Hrun & _ & Hfig & Hpanels & Hplan).
  by exists w1, new.
Qed.

Lemma displayExposure_layout_witness :
  let exposure :=
    Afw.mkExposure (Afw.getMaskedImage sample_exposure)
      (Some (Afw.mkPsf (Afw.mkImage (Afw.mkBox (-2) 3 (-1) 1) [ramp 0 5; ramp 5 5]))) in
  ∃ w1 new,
    displayExposure exposure true true true true 8 (5 # 2)%Q sample_world
      = (inr (Some 0), w1) ∧
    Plt.figures w1 = Plt.figures sample_world ++ [(8, 5 # 2)%Q] ∧
    Plt.panels w1 = Plt.panels sample_world ++ new ∧
    panels_are 0 true new (exposure_plan exposure true true).
Proof.
  intros exposure.
  apply (displayExposure_layout exposure true true true true 8 (5 # 2)%Q sample_world).
  - reflexivity.
  - vm_compute. lia.
  - intros _. vm_compute. lia.
  - intros Hfalse. discriminate Hfalse.
  - intros _. eexists. split; [reflexivity|]. vm_compute. lia.
Defined.

(** When the PSF is asked for and the exposure has none, [displayExposure]
    raises an [AttributeError], and does so after the data plane, and the
    mask plane if asked for, have been drawn in a new figure. *)
Theorem displayExposure_without_psf exposure showMasks showVariance showBars
    width height w :
  Plt.backend w = true →
  Afw.getPsf exposure = None →
  10 ≤ length (finite_samples (Afw.mi_image (Afw.getMaskedImage exposure))) →
  (showMasks = true →
   10 ≤ length (finite_samples (Afw.mi_mask (Afw.getMaskedImage exposure)))) →
  ∃ w1 new,
    displayExposure exposure showMasks showVariance true showBars width height w
      = (Py.raise Py.AttributeError, w1) ∧
    Plt.figures w1 = Plt.figures w ++ [(width, height)] ∧
    Plt.panels w1 = Plt.panels w ++ new ∧
    panels_are (length (Plt.figures w)) showBars new
      (masked_plan (Afw.getMaskedImage exposure) showMasks false).
Proof.
  intros Hb Hnone Himage Hmask.
  destruct (displayExposure_masked_part exposure showMasks showVariance true showBars
              width height w Hb Himage Hmask)
    as (w1 & new & -> & Hb1 & Hfig & Hpanels & Hplan); [done|].
  rewrite Hnone. eexists _, new. split; [reflexivity|]. simpl. done.
Qed.

Lemma displayExposure_without_psf_witness :
  ∃ w1 new,
    displayExposure sample_exposure true false true true 8 (5 # 2)%Q sample_world
      = (Py.raise Py.AttributeError, w1) ∧
    Plt.figures w1 = Plt.figures sample_world ++ [(8, 5 # 2)%Q] ∧
    Plt.panels w1 = Plt.panels sample_world ++ new ∧
    panels_are 0 true new (masked_plan (Afw.getMaskedImage sample_exposure) true false).
Proof.
  apply (displayExposure_without_psf sample_exposure true false true 8 (5 # 2)%Q
           sample_world).
  - reflexivity.
  - reflexivity.
  - vm_compute. lia.
  - intros _. vm_compute. lia.
Defined.

Section images_layout.

(** The loop of [displayImages]: one panel for each image, in order. *)
Lemma displayImages_loop_run len showBars images :
  ∀ i w,
    Plt.backend w = true →
    Plt.figures w ≠ [] →
    Forall (λ image, 10 ≤ length (finite_samples (Afw.getArray image))) images →
    ∃ w1 new,
      displayImages_loop len showBars i images w = (inr (), w1) ∧
      Plt.figures w1 = Plt.figures w ∧
      Plt.panels w1 = Plt.panels w ++ new ∧
      panels_are (length (Plt.figures w) - 1) showBars new (images_plan len i images).
Proof.
  induction images as [|image rest IH]; intros i w Hb Hfig Hall.
  - exists w, []. simpl. rewrite app_nil_r. repeat split; try done. constructor.
  - apply Forall_cons in Hall as [Himage Hrest]. simpl.
    unfold Plt.bind at 1, Plt.subplot, Plt.modify.
    destruct (display2dArray_run (Afw.getArray image) "Data" showBars
                (Some (bbox_extent (Afw.getBBox image))) (Plt.set_axes (1, len, i + 1) w))
      as (p & Hrun & Hp); [done|done|done|].
    unfold Plt.bind at 1. rewrite Hrun.
    destruct (IH (S i) (drawn (Plt.set_axes (1, len, i + 1) w) p))
      as (w1 & new & Hloop & Hf1 & Hp1 & Hplan); [done|done|done|].
    exists w1, (p :: new). split; [done|]. split; [done|].
    split; [by rewrite Hp1; simpl; rewrite <- (assoc_L (++))|].
    constructor; [exact Hp|exact Hplan].
Qed.

End images_layout.

(** [displayImages] on a tuple of images opens one figure and draws the
    images side by side, the image of index [i] in place [i + 1] of a row of
    as many places as there are images, each titled "Data" and at the extent
    of its own bounding box; nothing limits the tuple to three images, and
    an empty tuple gives an empty figure.  Each image must hold ten real
    samples. *)
Theorem displayImages_layout images showBars width height w :
  Plt.backend w = true →
  Forall (λ image, 10 ≤ length (finite_samples (Afw.getArray image))) images →
  ∃ w1 new,
    displayImages (ATuple images) showBars width height w
      = (inr (Some (length (Plt.figures w))), w1) ∧
    Plt.figures w1 = Plt.figures w ++ [(width, height)] ∧
    Plt.panels w1 = Plt.panels w ++ new ∧
    panels_are (length (Plt.figures w)) showBars new
      (images_plan (length images) 0 images).
Proof.
  intros Hb Hall. unfold displayImages.
  rewrite (bind_run _ _ _ _ _ (importMatplotlib_present w Hb)). simpl.
  unfold Plt.bind at 1, Plt.figure. unfold Plt.bind at 1, Plt.lift. simpl.
  destruct (displayImages_loop_run (length images) showBars images 0
              (Plt.set_axes (1, 1, 1)
                 (Plt.set_figures (Plt.figures w ++ [(width, height)]) w)))
    as (w1 & new & Hloop & Hf1 & Hp1 & Hplan);
    [done|by simpl; destruct (Plt.figures w)|done|].
  simpl in Hf1, Hp1, Hplan.
  rewrite length_app, Nat.add_1_r, Nat.sub_1_r in Hplan. simpl in Hplan.
  unfold Plt.bind at 1. rewrite Hloop. by exists w1, new.
Qed.

Lemma displayImages_layout_witness :
  let image := Afw.getImage (Afw.getMaskedImage sample_exposure) in
  ∃ w1 new,
    displayImages (ATuple [image; image]) false 8 (5 # 2)%Q sample_world
      = (inr (Some 0), w1) ∧
    Plt.figures w1 = Plt.figures sample_world ++ [(8, 5 # 2)%Q] ∧
    Plt.panels w1 = Plt.panels sample_world ++ new ∧
    panels_are 0 false new (images_plan 2 0 [image; image]).
Proof.
  intros image.
  apply (displayImages_layout [image; image] false 8 (5 # 2)%Q sample_world).
  - reflexivity.
  - repeat constructor; vm_compute; lia.
Defined.

(** [dpDisplayImages] opens three figures of the default size, one for
    each exposure of the dipole image and in the order difference, positive,
    negative; each figure holds the data, mask and variance planes of its
    exposure.  Every plane must hold ten real samples. *)
Theorem dpDisplayImages_layout dipoleImage w :
  Plt.backend w = true →
  showable (diffim dipoleImage) →
  showable (posImage dipoleImage) →
  showable (negImage dipoleImage) →
  ∃ w1 new1 new2 new3,
    dpDisplayImages dipoleImage w = (inr (), w1) ∧
    Plt.figures w1 = Plt.figures w ++ [(8, 5 # 2); (8, 5 # 2); (8, 5 # 2)]%Q ∧
    Plt.panels w1 = Plt.panels w ++ new1 ++ new2 ++ new3 ∧
    panels_are (length (Plt.figures w)) true new1
      (masked_plan (Afw.getMaskedImage (diffim dipoleImage)) true true) ∧
    panels_are (length (Plt.figures w) + 1) true new2
      (masked_plan (Afw.getMaskedImage (posImage dipoleImage)) true true) ∧
    panels_are (length (Plt.figures w) + 2) true new3
      (masked_plan (Afw.getMaskedImage (negImage dipoleImage)) true true).
Proof.
  intros Hb (Hd1 & Hd2 & Hd3) (Hp1 & Hp2 & Hp3) (Hn1 & Hn2 & Hn3).
  unfold dpDisplayImages.
  destruct (displayExposure_run (diffim dipoleImage) true false false true 8 (5 # 2)%Q w)
    as (w1 & new1 & Hrun1 & Hb1 & Hf1 & Hpan1 & Hplan1); [done..|].
  destruct (displayExposure_run (posImage dipoleImage) true false false true 8 (5 # 2)%Q w1)
    as (w2 & new2 & Hrun2 & Hb2 & Hf2 & Hpan2 & Hplan2); [done..|].
  destruct (displayExposure_run (negImage dipoleImage) true false false true 8 (5 # 2)%Q w2)
    as (w3 & new3 & Hrun3 & Hb3 & Hf3 & Hpan3 & Hplan3); [done..|].
  rewrite (bind_run _ _ _ _ _ Hrun1), (bind_run _ _ _ _ _ Hrun2),
    (bind_run _ _ _ _ _ Hrun3).
  unfold exposure_plan in *. simpl negb in *. rewrite app_nil_r in *.
  rewrite Hf2, Hf1, length_app, Nat.add_1_r in Hplan3.
  rewrite length_app, Nat.add_1_r in Hplan3.
  rewrite Hf1, length_app in Hplan2.
  exists w3, new1, new2, new3. split; [done|].
  split; [by rewrite Hf3, Hf2, Hf1, <- !(assoc_L (++))|].
  split; [by rewrite Hpan3, Hpan2, Hpan1, <- !(assoc_L (++))|].
  split; [done|]. split; [done|].
  by replace (length (Plt.figures w) + 2) with (S (S (length (Plt.figures w)))) by lia.
Qed.

Lemma dpDisplayImages_layout_witness :
  let dipoleImage := mkDipoleTestImage sample_exposure sample_exposure sample_exposure in
  ∃ w1 new1 new2 new3,
    dpDisplayImages dipoleImage sample_world = (inr (), w1) ∧
    Plt.figures w1 = Plt.figures sample_world ++ [(8, 5 # 2); (8, 5 # 2); (8, 5 # 2)]%Q ∧
    Plt.panels w1 = Plt.panels sample_world ++ new1 ++ new2 ++ new3 ∧
    panels_are (length (Plt.figures sample_world)) true new1
      (masked_plan (Afw.getMaskedImage (diffim dipoleImage)) true true) ∧
    panels_are (length (Plt.figures sample_world) + 1) true new2
      (masked_plan (Afw.getMaskedImage (posImage dipoleImage)) true true) ∧
    panels_are (length (Plt.figures sample_world) + 2) true new3
      (masked_plan (Afw.getMaskedImage (negImage dipoleImage)) true true).
Proof.
  intros dipoleImage.
  apply (dpDisplayImages_layout dipoleImage sample_world); [reflexivity|..];
    (repeat split; vm_compute; lia).
Defined.

(** [dpDisplayCutouts] draws the cutouts of the three exposures of the
    dipole image, in the order difference, positive, negative, under the
    bare titles " Diffim", " Pos" and " Neg", and returns nothing, not even
    the figure.  Each cutout must be extractable and hold ten real
    pixels. *)
Theorem dpDisplayCutouts_panels dipoleImage source asHeavyFootprint w :
  let exposures := [diffim dipoleImage; posImage dipoleImage; negImage dipoleImage] in
  Plt.backend w = true →
  Forall (λ e, ∃ sub, cutout asHeavyFootprint (Afw.getFootprint source) e = inr sub ∧
                      10 ≤ length (finite_samples (Afw.getArray sub))) exposures →
  ∃ w1 new,
    dpDisplayCutouts dipoleImage source asHeavyFootprint w = (inr (), w1) ∧
    Plt.panels w1 = Plt.panels w ++ new ∧
    Plt.p_title <$> new = [" Diffim"; " Pos"; " Neg"] ∧
    Forall2 (λ p e, ∃ sub, cutout asHeavyFootprint (Afw.getFootprint source) e = inr sub ∧
                           Plt.p_data p = Afw.getArray sub) new exposures.
Proof.
  intros exposures Hb Hall. unfold dpDisplayCutouts.
  destruct (displayCutouts_returns source (diffim dipoleImage)
              (Some (posImage dipoleImage)) (Some (negImage dipoleImage))
              asHeavyFootprint "" (8, 5 # 2)%Q w Hb Hall) as (r & w1 & Hrun).
  rewrite (bind_run _ _ _ _ _ Hrun).
  apply displayCutouts_inv in Hrun as (_ & new & Hd & Hcut & Htitles); [|done].
  exists w1, new. split; [done|]. split; [apply Hd|]. split; [done|].
  eapply Forall2_impl; [exact Hcut|]. intros p e (sub & ? & ? & _). by exists sub.
Qed.

Lemma dpDisplayCutouts_panels_witness :
  let dipoleImage := mkDipoleTestImage sample_exposure sample_exposure sample_exposure in
  ∃ w1 new,
    dpDisplayCutouts dipoleImage sample_source true sample_world = (inr (), w1) ∧
    Plt.panels w1 = Plt.panels sample_world ++ new ∧
    Plt.p_title <$> new = [" Diffim"; " Pos"; " Neg"] ∧
    Forall2 (λ p e, ∃ sub, cutout true (Afw.getFootprint sample_source) e = inr sub ∧
                           Plt.p_data p = Afw.getArray sub) new
      [diffim dipoleImage; posImage dipoleImage; negImage dipoleImage].
Proof.
  intros dipoleImage.
  apply (dpDisplayCutouts_panels dipoleImage sample_source true sample_world).
  - reflexivity.
  - repeat constructor; (eexists; split; [vm_compute; reflexivity|vm_compute; lia]).
Defined.

(** ** Crops and expanded footprints *)

Section crops.

(** A sub-image holds the pixels of its parent on its box. *)
Lemma ImageF_sub_pixel im bbox sub :
  Afw.ImageF_sub im bbox = inr sub →
  Afw.getBBox sub = bbox ∧
  ∀ x y, Afw.inside bbox x y = true → Afw.pixel sub x y = Afw.pixel im x y.
Proof.
  unfold Afw.ImageF_sub.
  destruct (Afw.contains_box (Afw.getBBox im) bbox) eqn:Hbox; [|done].
  intros [= <-]. split; [done|]. intros x y Hin.
  unfold Afw.contains_box in Hbox. rewrite !andb_true_iff in Hbox.
  pose proof Hin as Hin'. apply inside_bounds in Hin'.
  assert (Afw.inside (Afw.getBBox im) x y = true) as Hparent.
  { apply inside_bounds. lia. }
  unfold Afw.pixel. simpl. rewrite Hin, Hparent.
  unfold Afw.getWidth, Afw.getHeight.
  rewrite list_lookup_fmap, lookup_take_lt, lookup_drop by lia.
  replace (Z.to_nat (Afw.getBeginY bbox - Afw.getBeginY (Afw.getBBox im)) +
           Z.to_nat (y - Afw.getBeginY bbox))
    with (Z.to_nat (y - Afw.getBeginY (Afw.getBBox im))) by lia.
  destruct (Afw.getArray im !! Z.to_nat (y - Afw.getBeginY (Afw.getBBox im)))
    as [row|]; [|done].
  simpl. rewrite lookup_take_lt, lookup_drop by lia. f_equal. lia.
Qed.

(** Writing back any values at the pixels of a region: a pixel of the
    region holds one of the values written there, and every other pixel is
    left as it was. *)
Lemma expandArray_values pixels :
  ∀ values dest dest',
    Afw.expandArray pixels values dest = inr dest' →
    Afw.getBBox dest' = Afw.getBBox dest ∧
    ∀ x y,
      ((x, y) ∉ pixels → Afw.pixel dest' x y = Afw.pixel dest x y) ∧
      ((x, y) ∈ pixels →
       ∃ i v, pixels !! i = Some (x, y) ∧ values !! i = Some v ∧
              Afw.pixel dest' x y = Some v).
Proof.
  induction pixels as [|[x0 y0] pixels IH]; intros [|v values] dest dest'; simpl; try done.
  - intros [= <-]. split; [done|]. intros x y. split; [done|]. by intros ?%elem_of_nil.
  - destruct (Afw.set_pixel dest x0 y0 v) as [e|d1] eqn:Hset; [done|]. simpl.
    intros Hrest. apply set_pixel_spec in Hset as [Hb1 Hp1].
    apply IH in Hrest as [Hb Hp]. split; [congruence|].
    intros x y. destruct (Hp x y) as [Hout Hin]. split.
    + intros Hnot. apply not_elem_of_cons in Hnot as [Hne Hnot].
      rewrite Hout, Hp1 by done. by rewrite decide_False.
    + intros Hmem. destruct (decide ((x, y) ∈ pixels)) as [Hrest|Hrest].
      * destruct (Hin Hrest) as (i & v' & Hi & Hv & Hpix). by exists (S i), v'.
      * apply elem_of_cons in Hmem as [Heq|]; [|done].
        exists 0, v. injection Heq as -> ->. split; [done|]. split; [done|].
        rewrite Hout, Hp1 by done. by rewrite decide_True.
Qed.

End crops.

(** Without the heavy-footprint mode, each cutout that [displayCutouts]
    draws is the plain crop of its exposure: on the bounding box of the
    footprint it holds the pixels of the image plane, whether or not they
    belong to the footprint. *)
Theorem displayCutouts_plain_crop source exposure posImage negImage title figsize w r w1 :
  Plt.backend w = true →
  displayCutouts source exposure posImage negImage false title figsize w = (inr r, w1) →
  ∃ new, Plt.panels w1 = Plt.panels w ++ new ∧
    Forall2 (λ p e, cropped_at_footprint (Afw.getFootprint source) e (Plt.p_data p))
      new (exposure :: supplied posImage negImage).
Proof.
  intros Hb Hrun.
  apply displayCutouts_inv in Hrun as (_ & new & Hd & Hcut & _); [|done].
  exists new. split; [apply Hd|].
  eapply Forall2_impl; [exact Hcut|]. simpl.
  intros p e (sub & Hsub & -> & _). unfold cutout in Hsub. simpl in Hsub.
  apply ImageF_sub_pixel in Hsub as [Hbox Hpix].
  intros x y Hin. rewrite <- Hbox. destruct sub as [b data]. simpl in *. subst b.
  by apply Hpix.
Qed.

Lemma displayCutouts_plain_crop_witness :
  ∃ new,
    Plt.panels
      (displayCutouts sample_source sample_exposure None None false "src"
         (8, 5 # 2)%Q sample_world).2 = Plt.panels sample_world ++ new ∧
    Forall2 (λ p e, cropped_at_footprint (Afw.getFootprint sample_source) e (Plt.p_data p))
      new (sample_exposure :: supplied None None).
Proof.
  apply (displayCutouts_plain_crop sample_source sample_exposure None None "src"
           (8, 5 # 2)%Q sample_world (Some 0)).
  - reflexivity.
  - vm_compute. reflexivity.
Defined.

(** [getHeavyFootprintSubimage] refuses a footprint that is not heavy.  On
    a heavy one, the image it returns sits at the bounding box of the
    footprint, grown by [grow] on every side when [grow] is positive; there,
    a pixel outside the footprint holds [badfill] and a pixel of the
    footprint holds the value that the footprint carries for it. *)
Theorem getHeavyFootprintSubimage_pixels fp badfill grow :
  (Afw.isHeavy fp = false →
   getHeavyFootprintSubimage fp badfill grow = Py.raise Py.AttributeError) ∧
  (∀ sub,
     getHeavyFootprintSubimage fp badfill grow = inr sub →
     let bbox := if (0 <? grow)%Z then Afw.grow (Afw.fp_bbox fp) grow else Afw.fp_bbox fp in
     Afw.getBBox sub = bbox ∧
     ∀ x y,
       ((x, y) ∉ Afw.fp_pixels fp → Afw.inside bbox x y = true →
        Afw.pixel sub x y = Some badfill) ∧
       ((x, y) ∈ Afw.fp_pixels fp →
        ∃ i v values, Afw.fp_pixels fp !! i = Some (x, y) ∧
                      Afw.getImageArray fp = Some values ∧ values !! i = Some v ∧
                      Afw.pixel sub x y = Some v)).
Proof.
  unfold getHeavyFootprintSubimage, Afw.HeavyFootprintF_cast. split.
  - by intros ->.
  - intros sub. destruct (Afw.isHeavy fp); [|done].
    destruct (Afw.getImageArray fp) as [values|]; [|done].
    intros Hexp. apply expandArray_values in Hexp as [Hb Hp].
    split; [exact Hb|]. intros x y. destruct (Hp x y) as [Hout Hin]. split.
    + intros Hnot Hinside. rewrite Hout, pixel_fill by done. by rewrite Hinside.
    + intros Hmem. destruct (Hin Hmem) as (i & v & Hi & Hv & Hpix). by exists i, v, values.
Qed.

Lemma getHeavyFootprintSubimage_pixels_witness :
  ∃ sub,
    getHeavyFootprintSubimage heavy_footprint (Np.Fin 0) 1 = inr sub ∧
    Afw.getBBox sub = Afw.mkBox (-1) 4 (-1) 3 ∧
    Afw.pixel sub (-1) (-1) = Some (Np.Fin 0) ∧
    ∃ i v values, Afw.fp_pixels heavy_footprint !! i = Some (2, 1)%Z ∧
                  Afw.getImageArray heavy_footprint = Some values ∧
                  values !! i = Some v ∧ Afw.pixel sub 2 1 = Some v.
Proof.
  eexists. split; [vm_compute; reflexivity|].
  match goal with
  | |- Afw.getBBox ?s = _ ∧ _ =>
      destruct (proj2 (getHeavyFootprintSubimage_pixels heavy_footprint (Np.Fin 0) 1) s)
        as [Hbox Hpix]; [vm_compute; reflexivity|]
  end.
  split; [exact Hbox|]. split.
  - apply (proj1 (Hpix (-1) (-1))%Z); [|reflexivity].
    intros Hmem. vm_compute in Hmem. by repeat (apply elem_of_cons in Hmem as [|Hmem]);
      try apply elem_of_nil in Hmem.
  - apply (proj2 (Hpix 2 1)%Z). apply elem_of_cons. right. apply elem_of_cons. right.
    apply elem_of_cons. by left.
Defined.

(** ** What the catalog helpers print and leave alone *)

Section catalog_output.

Lemma records_of_set_record_footprint_ids catalog i hfp w :
  Afw.getId <$> records_of catalog (set_record_footprint catalog i hfp w).2
  = Afw.getId <$> records_of catalog w.
Proof.
  unfold records_of, set_record_footprint, Plt.modify. simpl.
  rewrite lookup_total_alter_eq, lookup_total_alt.
  destruct (Plt.catalogs w !! catalog) as [l|]; simpl; [|done].
  rewrite (list_fmap_alter Afw.getId _ id) by (by apply Forall_forall).
  by apply list_alter_id.
Qed.

(** A run of the loop that returns has printed one line for each light
    record when verbose and nothing otherwise; it has drawn nothing, and has
    touched no other catalog and no identifier. *)
Lemma makeHeavyCatalog_loop_output catalog exposure verbose records :
  ∀ i w u w1,
    makeHeavyCatalog_loop catalog exposure verbose i records w = (inr u, w1) →
    Plt.stdout w1 = Plt.stdout w ++ (if verbose then upgrade_lines i records else []) ∧
    Plt.panels w1 = Plt.panels w ∧
    Plt.figures w1 = Plt.figures w ∧
    (∀ c, c ≠ catalog → Plt.catalogs w1 !! c = Plt.catalogs w !! c) ∧
    Afw.getId <$> records_of catalog w1 = Afw.getId <$> records_of catalog w.
Proof.
  induction records as [|s rest IH]; intros i w u w1; simpl.
  - intros [= _ <-]. destruct verbose; by rewrite app_nil_r.
  - destruct (Afw.isHeavy (Afw.getFootprint s)) eqn:Hs; simpl.
    + unfold Plt.bind at 1. simpl. intros Hrun. by apply IH in Hrun.
    + intros Hrun.
      apply bind_inr in Hrun as (u1 & w2 & Hstep & Hrun).
      apply bind_inr in Hstep as (u2 & w3 & Hprint & Hstep).
      apply bind_inr in Hstep as (hfp & w4 & [_ ->]%lift_inr & Hset).
      assert (w2 = (set_record_footprint catalog i hfp w3).2) as ->.
      { unfold set_record_footprint, Plt.modify in *. by injection Hset as _ <-. }
      apply IH in Hrun as (Hout & Hpan & Hfig & Hother & Hids).
      rewrite records_of_set_record_footprint_ids in Hids.
      simpl in Hout, Hpan, Hfig, Hother.
      assert (Plt.stdout w3 = Plt.stdout w ++
                (if verbose then [pretty i +:+ " not heavy => heavy"] else []) ∧
              Plt.panels w3 = Plt.panels w ∧ Plt.figures w3 = Plt.figures w ∧
              Plt.catalogs w3 = Plt.catalogs w) as (Ho3 & Hp3 & Hf3 & Hc3).
      { destruct verbose.
        - unfold Plt.print, Plt.modify in Hprint. by injection Hprint as _ <-.
        - apply ret_inr in Hprint as [_ ->]. by rewrite app_nil_r. }
      split; [|split; [congruence|split; [congruence|split]]].
      * rewrite Hout, Ho3. destruct verbose; by rewrite <- ?(assoc_L (++)), ?app_nil_r.
      * intros c Hc. rewrite (Hother c Hc), lookup_alter_ne, Hc3 by done. done.
      * rewrite Hids. unfold records_of. by rewrite Hc3.
Qed.

End catalog_output.

(** A run of [makeHeavyCatalog] that returns has printed, when verbose,
    one line "i not heavy => heavy" for each record whose footprint was
    light, in catalog order, and nothing when not verbose; it has drawn
    nothing, has left every other catalog as it was, and has kept the
    records of its catalog in place: same number, same identifiers, same
    order. *)
Theorem makeHeavyCatalog_output catalog exposure verbose w r w1 :
  makeHeavyCatalog catalog exposure verbose w = (inr r, w1) →
  Plt.stdout w1 =
    Plt.stdout w ++ (if verbose then upgrade_lines 0 (records_of catalog w) else []) ∧
  Plt.panels w1 = Plt.panels w ∧
  (∀ c, c ≠ catalog → Plt.catalogs w1 !! c = Plt.catalogs w !! c) ∧
  Afw.getId <$> records_of catalog w1 = Afw.getId <$> records_of catalog w.
Proof.
  unfold makeHeavyCatalog, get_catalog. intros Hrun.
  apply bind_inr in Hrun as (records & w2 & [= <- <-] & Hrun).
  apply bind_inr in Hrun as (u & w3 & Hloop & [_ ->]%ret_inr).
  fold (records_of catalog w) in Hloop.
  by apply makeHeavyCatalog_loop_output in Hloop as (? & ? & _ & ? & ?).
Qed.

Lemma makeHeavyCatalog_output_witness :
  let w1 := (makeHeavyCatalog 0 sample_exposure true sample_world).2 in
  Plt.stdout w1 =
    Plt.stdout sample_world ++ upgrade_lines 0 (records_of 0 sample_world) ∧
  Plt.panels w1 = Plt.panels sample_world ∧
  (∀ c, c ≠ 0 → Plt.catalogs w1 !! c = Plt.catalogs sample_world !! c) ∧
  Afw.getId <$> records_of 0 w1 = Afw.getId <$> records_of 0 sample_world.
Proof.
  intros w1.
  apply (makeHeavyCatalog_output 0 sample_exposure true sample_world 0 w1).
  vm_compute. reflexivity.
Defined.

Section lookup_outcomes.

Context `{Afw.Geom}.

(** What each outcome of the loop tells. *)
Lemma searchCatalog_loop_outcome x y records :
  ∀ i w r w1,
    searchCatalog_loop x y i records w = (r, w1) →
    let holds s := point_in_bbox x y (Afw.fp_bbox (Afw.getFootprint s)) in
    let before k := ∀ j s', j < k → records !! j = Some s' → holds s' = inr false in
    match r with
    | inr (Some s) =>
        ∃ k, records !! k = Some s ∧ holds s = inr true ∧ before k ∧
             w1 = Plt.set_stdout (Plt.stdout w ++ [pretty (i + k)]) w
    | inr None => Forall (λ s, holds s = inr false) records ∧ w1 = w
    | inl e => ∃ k s, records !! k = Some s ∧ holds s = inl e ∧ before k ∧ w1 = w
    end.
Proof.
  induction records as [|s0 rest IH]; intros i w r w1.
  - simpl. intros [= <- <-]. by split.
  - rewrite searchCatalog_loop_cons. intros Hrun holds before.
    destruct (point_in_bbox x y (Afw.fp_bbox (Afw.getFootprint s0))) as [e|[|]] eqn:Hs0.
    + injection Hrun as <- <-. exists 0, s0. repeat split; try done. intros j s' Hj. lia.
    + injection Hrun as <- <-. exists 0. rewrite Nat.add_0_r.
      repeat split; try done. intros j s' Hj. lia.
    + apply IH in Hrun. simpl in Hrun. destruct r as [e|[s|]].
      * destruct Hrun as (k & s & Hk & Hs & Hbefore & ->). exists (S k), s.
        repeat split; try done. intros [|j] s' Hj Hs'; simpl in Hs'.
        -- by injection Hs' as <-.
        -- apply (Hbefore j s'); [lia|done].
      * destruct Hrun as (k & Hk & Hs & Hbefore & ->). exists (S k).
        rewrite Nat.add_succ_r. repeat split; try done.
        intros [|j] s' Hj Hs'; simpl in Hs'.
        -- by injection Hs' as <-.
        -- apply (Hbefore j s'); [lia|done].
      * destruct Hrun as [Hall ->]. split; [|done]. by constructor.
Qed.

End lookup_outcomes.

(** What each outcome of [searchCatalog] tells.  A record that is returned
    is a record of the catalog whose bounding box holds the point, every
    record before it was tested and does not, and its index is the one line
    printed.  An absent result means that no bounding box holds the point.
    An exception is the one raised by the integer test of the first record
    that could not be decided.  In the last two cases nothing is printed, and
    in no case is the catalog changed. *)
Theorem searchCatalog_outcome `{Afw.Geom} catalog x y w r w1 :
  searchCatalog catalog x y w = (r, w1) →
  let holds s := point_in_bbox x y (Afw.fp_bbox (Afw.getFootprint s)) in
  let before k :=
    ∀ j s', j < k → records_of catalog w !! j = Some s' → holds s' = inr false in
  Plt.catalogs w1 = Plt.catalogs w ∧
  match r with
  | inr (Some s) =>
      ∃ k, records_of catalog w !! k = Some s ∧ holds s = inr true ∧ before k ∧
           w1 = Plt.set_stdout (Plt.stdout w ++ [pretty k]) w
  | inr None => Forall (λ s, holds s = inr false) (records_of catalog w) ∧ w1 = w
  | inl e =>
      ∃ k s, records_of catalog w !! k = Some s ∧ holds s = inl e ∧ before k ∧ w1 = w
  end.
Proof.
  unfold searchCatalog, get_catalog, Plt.bind. fold (records_of catalog w).
  intros Hrun. cbv zeta. apply searchCatalog_loop_outcome in Hrun. cbv zeta in Hrun.
  destruct r as [e|[s|]].
  - destruct Hrun as (k & s & Hk & Hs & Hbefore & ->). split; [done|]. by exists k, s.
  - destruct Hrun as (k & Hk & Hs & Hbefore & ->). split; [done|]. by exists k.
  - destruct Hrun as [Hall ->]. by split.
Qed.

Lemma searchCatalog_outcome_witness :
  Plt.catalogs
    (@searchCatalog integer_boxes 0 (Np.Fin (5 # 2)) (Np.Fin (3 # 2)) sample_world).2
  = Plt.catalogs sample_world ∧
  ∃ k, records_of 0 sample_world !! k = Some sample_source ∧
       @point_in_bbox integer_boxes (Np.Fin (5 # 2)) (Np.Fin (3 # 2))
         (Afw.fp_bbox (Afw.getFootprint sample_source)) = inr true ∧
       (∀ j s', j < k → records_of 0 sample_world !! j = Some s' →
                @point_in_bbox integer_boxes (Np.Fin (5 # 2)) (Np.Fin (3 # 2))
                  (Afw.fp_bbox (Afw.getFootprint s')) = inr false) ∧
       (@searchCatalog integer_boxes 0 (Np.Fin (5 # 2)) (Np.Fin (3 # 2)) sample_world).2
       = Plt.set_stdout (Plt.stdout sample_world ++ [pretty k]) sample_world.
Proof.
  apply (@searchCatalog_outcome integer_boxes 0 (Np.Fin (5 # 2)) (Np.Fin (3 # 2))
           sample_world (inr (Some sample_source))).
  vm_compute. reflexivity.
Defined.

(** A query with a not-a-number coordinate cannot fall back on the integer
    test: when the floating-point test of the first record raises,
    [searchCatalog] raises a [ValueError], prints nothing and looks at no
    other record. *)
Theorem searchCatalog_nan_query `{Afw.Geom} catalog x y w s e :
  records_of catalog w !! 0 = Some s →
  Afw.contains_Point2D (Afw.fp_bbox (Afw.getFootprint s)) x y = inl e →
  x = Np.NaN ∨ y = Np.NaN →
  searchCatalog catalog x y w = (Py.raise Py.ValueError, w).
Proof.
  intros Hs He Hnan. unfold searchCatalog, get_catalog, Plt.bind.
  fold (records_of catalog w).
  destruct (records_of catalog w) as [|s0 rest]; [done|]. injection Hs as ->.
  rewrite searchCatalog_loop_cons. unfold point_in_bbox. rewrite He.
  destruct Hnan as [-> | ->]; [done|]. by destruct x.
Qed.

Lemma searchCatalog_nan_query_witness :
  @searchCatalog integer_boxes 0 (Np.Fin 2) Np.NaN sample_world
  = (Py.raise Py.ValueError, sample_world).
Proof.
  apply (@searchCatalog_nan_query integer_boxes 0 (Np.Fin 2) Np.NaN sample_world
           other_source Py.TypeError).
  - reflexivity.
  - reflexivity.
  - by right.
Defined.

(** ** The single panel *)

(** With a backend and ten real samples, [display2dArray] draws exactly one
    panel, in the current subplot: the array it was given, under the title
    and at the extent it was given, with a colour bar exactly when asked for,
    and clipped to the range that [zscale] computes on that array with the
    default contrast.  It returns the handle of the panel, and nothing is
    printed. *)
Theorem display2dArray_panel arr title showBars extent w :
  Plt.backend w = true →
  10 ≤ length (finite_samples arr) →
  ∃ w1 p,
    display2dArray arr title showBars extent w = (inr (Some (length (Plt.panels w))), w1) ∧
    Plt.panels w1 = Plt.panels w ++ [p] ∧
    Plt.stdout w1 = Plt.stdout w ∧
    Plt.p_subplot p = Plt.axes w ∧
    Plt.p_title p = title ∧ Plt.p_extent p = extent ∧ Plt.p_data p = arr ∧
    Plt.p_colorbar p = showBars ∧
    zscale arr (1 # 4) = Py.ok (Plt.p_vmin p, Plt.p_vmax p).
Proof.
  intros Hb Hlen. unfold display2dArray.
  rewrite (bind_run _ _ _ _ _ (importMatplotlib_present w Hb)). simpl.
  destruct (zscale_ok arr (1 # 4) Hlen) as (z1 & z2 & Hz).
  unfold Plt.bind, Plt.lift. rewrite Hz.
  unfold Plt.imshow, Plt.bind, Plt.gcf, Plt.ret, Py.ok.
  destruct (Plt.figures w) as [|f fs] eqn:Hf;
    (eexists _, _; split; [reflexivity|by repeat split]).
Qed.

Lemma display2dArray_panel_witness :
  ∃ w1 p,
    display2dArray [ramp 0 5; ramp 5 5] "Data" false None sample_world
      = (inr (Some (length (Plt.panels sample_world))), w1) ∧
    Plt.panels w1 = Plt.panels sample_world ++ [p] ∧
    Plt.stdout w1 = Plt.stdout sample_world ∧
    Plt.p_subplot p = Plt.axes sample_world ∧
    Plt.p_title p = "Data" ∧ Plt.p_extent p = None ∧
    Plt.p_data p = [ramp 0 5; ramp 5 5] ∧
    Plt.p_colorbar p = false ∧
    zscale [ramp 0 5; ramp 5 5] (1 # 4) = Py.ok (Plt.p_vmin p, Plt.p_vmax p).
Proof. apply display2dArray_panel; [reflexivity|vm_compute; lia]. Defined.
